(** * rtcsocks: the Negotiator (negotiator.go)

    The Negotiator is the in-memory rendezvous broker: offers are handed to
    edge servers through one unbuffered channel per bin (a bitmap of group
    IDs), and answers are kept in a table keyed by the offer ID until their
    expiry.

    The model follows the Go source function by function.  The four
    operations run in goroutines; the blocks of code between two scheduling
    points (a channel operation, or a section under [mutexAnswers]) are the
    atomic steps of a transition system over the shared Negotiator and a pool
    of goroutines. *)

From stdpp Require Import gmap list fin_maps strings.
From Stdlib Require Import ZArith Lia Ascii.

Local Open Scope Z_scope.

(** ** Errors and values *)

Inductive error :=
  | ErrNotAuthenticated
  | ErrBadGroupID
  | ErrRNGError
  | ErrInvalidOfferID
  | ErrNoOfferAvailable
  | ErrAnswerPending
  | ErrAnswerRepeated
  | ErrNoAccess.

(** A Go [[]byte]: [None] is the nil slice, [Some l] a non-nil slice (which
    may be empty).  The source tests [body != nil]. *)
Definition slice := option (list Byte.byte).

Record offer := mkOffer {
  offer_id : Z;
  offer_user : Z;
  offer_sdp : slice
}.

Record answer := mkAnswer {
  body : slice;
  expiry : Z;
  user : Z
}.

(** An unbuffered [chan *offer].  No goroutine ever blocks receiving (the only
    receive is the [select] with a [default] of [nextOffer]), so the state of
    a channel is its queue of blocked senders, each with the value it sends.
    A goroutine is named by a number. *)
Definition chan := list (nat * offer).

Record Negotiator := mkNegotiator {
  maxGroupID : Z;
  offerBins : gmap Z chan;
  answers : gmap Z answer;
  ttl : Z
}.

Definition set_offerBins (n : Negotiator) (bins : gmap Z chan) : Negotiator :=
  mkNegotiator (maxGroupID n) bins (answers n) (ttl n).

Definition set_answers (n : Negotiator) (rows : gmap Z answer) : Negotiator :=
  mkNegotiator (maxGroupID n) (offerBins n) rows (ttl n).

(** Wrap-around of [uint64] arithmetic. *)
Definition u64 (z : Z) : Z := z mod 2 ^ 64.

(** ** Program points of the goroutines *)

(** [registerOffer]: before the call body runs; blocked in the send of line 97;
    past the send, before the table is locked (line 104); returned. *)
Inductive ro_pc :=
  | RO_call (usr : Z) (sdp : slice) (groups : list Z)
  | RO_send (groups : list Z) (binID : Z) (o : offer)
  | RO_store (o : offer)
  | RO_ret (offerID : Z) (err : option error).

(** [nextOffer]: before the call body runs; at the [select] of line 131 for
    the first bin of [binIDs]; holding a received offer, before the table is
    locked (line 134); returned. *)
Inductive no_pc :=
  | NO_call (group : Z)
  | NO_select (group : Z) (binIDs : list Z)
  | NO_check (group : Z) (binIDs : list Z) (o : offer)
  | NO_ret (offerID : Z) (sdp : slice) (err : option error).

Inductive goroutine :=
  | G_registerOffer (pc : ro_pc)
  | G_nextOffer (pc : no_pc).

Record system := mkSystem {
  neg : Negotiator;
  pool : gmap nat goroutine
}.

(** ** Channels *)

(** [ch <- v] on [offerBins[binID]]: the sender queues up.  A key that is not
    in the map yields the nil channel, on which a send blocks for ever: the
    sender is then in no queue. *)
Definition chan_send (n : Negotiator) (binID : Z) (tid : nat) (o : offer)
  : Negotiator :=
  match offerBins n !! binID with
  | Some q => set_offerBins n (<[binID := q ++ [(tid, o)]]> (offerBins n))
  | None => n
  end.

(** The receive case of the [select]: ready exactly when a sender is queued. *)
Definition chan_recv (n : Negotiator) (binID : Z)
  : option ((nat * offer) * Negotiator) :=
  match offerBins n !! binID with
  | Some (x :: q) => Some (x, set_offerBins n (<[binID := q]> (offerBins n)))
  | _ => None
  end.

(** ** The answer table operations (each one runs under [mutexAnswers]) *)

Definition registerAnswer (n : Negotiator) (offerID : Z) (sdp : slice)
  : Negotiator * option error :=
  match answers n !! offerID with
  | None => (n, Some ErrInvalidOfferID)
  | Some a =>
      match body a with
      | Some _ => (n, Some ErrAnswerRepeated)
      | None =>
          (set_answers n
             (<[offerID := mkAnswer sdp (expiry a) (user a)]> (answers n)),
           None)
      end
  end.

(** Successive [registerAnswer] calls on one offer ID, with nothing else
    running in between; the outcomes are listed in call order. *)
Fixpoint registerAnswer_seq (n : Negotiator) (offerID : Z) (sdps : list slice)
  : Negotiator * list (option error) :=
  match sdps with
  | [] => (n, [])
  | sdp :: rest =>
      let '(n1, e) := registerAnswer n offerID sdp in
      let '(n2, es) := registerAnswer_seq n1 offerID rest in
      (n2, e :: es)
  end.

(** The number of calls that returned a nil error. *)
Definition is_ok (e : option error) : bool :=
  match e with None => true | Some _ => false end.

Definition successes (es : list (option error)) : nat :=
  length (List.filter is_ok es).

Definition lookupAnswer (n : Negotiator) (usr offerID : Z)
  : Negotiator * (slice * option error) :=
  match answers n !! offerID with
  | None => (n, (None, Some ErrInvalidOfferID))
  | Some a =>
      if bool_decide (user a ≠ usr) then (n, (None, Some ErrNoAccess))
      else
        match body a with
        | None => (n, (None, Some ErrAnswerPending))
        | Some b => (n, (Some b, None))
        end
  end.

(** One cycle of [autoPurge] (lines 196-202).  [time.Now()] is read once per
    row: [now offerID] is the reading taken when the row [offerID] is
    inspected. *)
Definition purge_row (now : Z → Z) (offerID : Z) (a : answer)
    (rows : gmap Z answer) : gmap Z answer :=
  if expiry a <? now offerID then delete offerID rows else rows.

Definition autoPurge_cycle (n : Negotiator) (now : Z → Z) : Negotiator :=
  set_answers n (map_fold (purge_row now) (answers n) (answers n)).

(** Lines 103-113 of [registerOffer], after the send has completed. *)
Definition registerOffer_store (n : Negotiator) (now : Z) (o : offer)
  : Negotiator * ro_pc :=
  (set_answers n
     (<[offer_id o := mkAnswer None (now + ttl n) (offer_user o)]> (answers n)),
   RO_ret (offer_id o) None).

(** Lines 134-148 of [nextOffer]: the staleness check of a received offer. *)
Definition nextOffer_check (n : Negotiator) (now : Z) (group : Z)
    (binIDs : list Z) (o : offer) : no_pc :=
  match answers n !! offer_id o with
  | None => NO_select group binIDs
  | Some a =>
      if expiry a <? now then NO_select group binIDs
      else NO_ret (offer_id o) (offer_sdp o) None
  end.

Section Runtime.

(** [uint64(math.Pow(2, x))] where the power does not fit in 64 bits: the Go
    specification leaves the result of the conversion to the implementation.
    [cvt_ovf] is that result. *)
Variable cvt_ovf : Z.

(** [uint64(math.Pow(2, float64(e)))]: exact for [0 <= e < 64]; a negative
    exponent gives a fraction, which truncates to 0. *)
Definition pow2_u64 (e : Z) : Z :=
  if e <? 0 then 0 else if e <? 64 then 2 ^ e else u64 cvt_ovf.

(** Lines 78-83 of [registerOffer]. *)
Definition binID_step (G : Z) (binID groupID : Z) : Z :=
  if groupID <=? G then Z.lor binID (pow2_u64 (u64 (groupID - 1))) else binID.

Definition binID_of (G : Z) (groups : list Z) : Z :=
  fold_left (binID_step G) groups 0.

(** Lines 77-101 of [registerOffer], up to the point where the goroutine
    blocks in the send.  [rnd] is the outcome of [rand.Int]. *)
Definition registerOffer_enter (n : Negotiator) (tid : nat) (rnd : option Z)
    (usr : Z) (sdp : slice) (groups : list Z) : Negotiator * ro_pc :=
  let binID := binID_of (maxGroupID n) groups in
  if binID =? 0 then (n, RO_ret 0 (Some ErrBadGroupID))
  else
    match rnd with
    | None => (n, RO_ret 0 (Some ErrRNGError))
    | Some offerID =>
        let o := mkOffer offerID usr sdp in
        (chan_send n binID tid o, RO_send groups binID o)
    end.

(** Line 122: the test [binaryGroupID&binID > 0]. *)
Definition eligible (group binID : Z) : Prop :=
  0 < Z.land (pow2_u64 (u64 (group - 1))) binID.

#[global] Instance eligible_dec group binID : Decision (eligible group binID).
Proof. unfold eligible. apply _. Defined.

(** Lines 119-125 of [nextOffer].  [order] is the order in which [range]
    enumerates the keys of [offerBins]. *)
Definition nextOffer_enter (order : list Z) (group : Z) : no_pc :=
  NO_select group (filter (eligible group) order).

(** NewNegotiator (lines 47-67).  The loop counter is a [uint64]: with
    [maxBinIdx = 2^64 - 1] the loop never exits. *)
Definition NewNegotiator (G : Z) (ttl0 : Z) : option Negotiator :=
  let maxBinIdx := u64 (pow2_u64 G - 1) in
  if maxBinIdx =? 2 ^ 64 - 1 then None
  else
    Some (mkNegotiator (u64 G)
            (list_to_map ((λ i, (i, [] : chan)) <$> seqZ 1 maxBinIdx))
            ∅ ttl0).

End Runtime.

(** ** The transition system *)

Definition set_goroutine (s : system) (tid : nat) (g : goroutine) : system :=
  mkSystem (neg s) (<[tid := g]> (pool s)).

(** Lines 128-132 and 149-155 of [nextOffer]: one pass through the [select].
    A successful receive completes the send of the goroutine at the head of
    the queue, which becomes runnable again. *)
Definition nextOffer_select (s : system) (tid : nat) (group : Z)
    (binIDs : list Z) : system :=
  match binIDs with
  | [] =>
      set_goroutine s tid (G_nextOffer (NO_ret 0 None (Some ErrNoOfferAvailable)))
  | binID :: rest =>
      match chan_recv (neg s) binID with
      | Some ((sender, o), n') =>
          mkSystem n'
            (<[tid := G_nextOffer (NO_check group binIDs o)]>
               (<[sender := G_registerOffer (RO_store o)]> (pool s)))
      | None => set_goroutine s tid (G_nextOffer (NO_select group rest))
      end
  end.

(** What the scheduler, the clock, the random source and the callers of the
    API decide. *)
Inductive event :=
  | Ev_go_registerOffer (tid : nat) (usr : Z) (sdp : slice) (groups : list Z)
  | Ev_go_nextOffer (tid : nat) (group : Z)
  | Ev_ro_enter (tid : nat) (rnd : option Z)
  | Ev_ro_store (tid : nat) (now : Z)
  | Ev_no_enter (tid : nat) (order : list Z)
  | Ev_no_select (tid : nat)
  | Ev_no_check (tid : nat) (now : Z)
  | Ev_registerAnswer (offerID : Z) (sdp : slice)
  | Ev_lookupAnswer (usr offerID : Z)
  | Ev_autoPurge (now : Z → Z).

Section Steps.

Variable cvt_ovf : Z.

(** [step e s] is [None] when [e] is not enabled in [s]. *)
Definition step (e : event) (s : system) : option system :=
  match e with
  | Ev_go_registerOffer tid usr sdp groups =>
      match pool s !! tid with
      | None => Some (set_goroutine s tid (G_registerOffer (RO_call usr sdp groups)))
      | Some _ => None
      end
  | Ev_go_nextOffer tid group =>
      match pool s !! tid with
      | None => Some (set_goroutine s tid (G_nextOffer (NO_call group)))
      | Some _ => None
      end
  | Ev_ro_enter tid rnd =>
      match pool s !! tid with
      | Some (G_registerOffer (RO_call usr sdp groups)) =>
          let '(n', pc) := registerOffer_enter cvt_ovf (neg s) tid rnd usr sdp groups in
          Some (mkSystem n' (<[tid := G_registerOffer pc]> (pool s)))
      | _ => None
      end
  | Ev_ro_store tid now =>
      match pool s !! tid with
      | Some (G_registerOffer (RO_store o)) =>
          let '(n', pc) := registerOffer_store (neg s) now o in
          Some (mkSystem n' (<[tid := G_registerOffer pc]> (pool s)))
      | _ => None
      end
  | Ev_no_enter tid order =>
      match pool s !! tid with
      | Some (G_nextOffer (NO_call group)) =>
          if bool_decide (order ≡ₚ (map_to_list (offerBins (neg s))).*1) then
            Some (set_goroutine s tid (G_nextOffer (nextOffer_enter cvt_ovf order group)))
          else None
      | _ => None
      end
  | Ev_no_select tid =>
      match pool s !! tid with
      | Some (G_nextOffer (NO_select group binIDs)) =>
          Some (nextOffer_select s tid group binIDs)
      | _ => None
      end
  | Ev_no_check tid now =>
      match pool s !! tid with
      | Some (G_nextOffer (NO_check group binIDs o)) =>
          Some (set_goroutine s tid
                  (G_nextOffer (nextOffer_check (neg s) now group binIDs o)))
      | _ => None
      end
  | Ev_registerAnswer offerID sdp =>
      Some (mkSystem (registerAnswer (neg s) offerID sdp).1 (pool s))
  | Ev_lookupAnswer usr offerID =>
      Some (mkSystem (lookupAnswer (neg s) usr offerID).1 (pool s))
  | Ev_autoPurge now =>
      Some (mkSystem (autoPurge_cycle (neg s) now) (pool s))
  end.

Fixpoint run (evs : list event) (s : system) : option system :=
  match evs with
  | [] => Some s
  | e :: evs' =>
      match step e s with
      | Some s' => run evs' s'
      | None => None
      end
  end.

End Steps.

(** ** Invariants of the transition system *)

Section Invariant.

Variable cvt_ovf : Z.

(** A [nextOffer] goroutine only holds bins that passed the test of line 122. *)
Definition no_wf (pc : no_pc) : Prop :=
  match pc with
  | NO_select group binIDs | NO_check group binIDs _ =>
      Forall (eligible cvt_ovf group) binIDs
  | _ => True
  end.

(** The senders queued on a channel are the [registerOffer] goroutines
    blocked at line 97 on that very channel, each one queued once. *)
Record wf (s : system) : Prop := mk_wf {
  wf_pollers : ∀ tid pc, pool s !! tid = Some (G_nextOffer pc) → no_wf pc;
  wf_queued : ∀ b q tid o,
    offerBins (neg s) !! b = Some q → (tid, o) ∈ q →
    ∃ groups, pool s !! tid = Some (G_registerOffer (RO_send groups b o)) ∧
              b = binID_of cvt_ovf (maxGroupID (neg s)) groups;
  wf_nodup : ∀ b q, offerBins (neg s) !! b = Some q → NoDup q.*1
}.

(** The states of a Negotiator made by [NewNegotiator] and then used. *)
Definition reachable (s : system) : Prop :=
  ∃ G ttl0 n evs,
    NewNegotiator cvt_ovf G ttl0 = Some n ∧
    run cvt_ovf evs (mkSystem n ∅) = Some s.

(** A goroutine that may come to receive from bin [b]. *)
Definition polls (b : Z) (g : goroutine) : Prop :=
  match g with
  | G_nextOffer (NO_call group)
  | G_nextOffer (NO_select group _)
  | G_nextOffer (NO_check group _ _) => eligible cvt_ovf group b
  | _ => False
  end.


End Invariant.

(** [uint64] of an out-of-range float on amd64 (the sign bit alone). *)
Definition amd64 : Z := 2 ^ 63.

(** The bin ID as the specification words it: the OR of [2^(g-1)] over the
    listed groups that lie in [1..G]. *)
Definition binID_spec (G : Z) (groups : list Z) : Z :=
  fold_left (λ b g, Z.lor b (2 ^ (g - 1)))
    (filter (λ g, 1 ≤ g ≤ G) groups) 0.

(** ** Example states *)

(** The Negotiator built by [NewNegotiator(3, 10)]: bins 1..7, empty table. *)
Definition negotiator3 : Negotiator :=
  mkNegotiator 3 (list_to_map ((λ i, (i, [] : chan)) <$> seqZ 1 7)) ∅ 10.

Definition with_row (n : Negotiator) (offerID : Z) (a : answer) : Negotiator :=
  set_answers n (<[offerID := a]> (answers n)).

(** Offer 7 of user 42, not answered yet. *)
Definition pending7 : Negotiator := with_row negotiator3 7 (mkAnswer None 10 42).

(** Offer 7 of user 1, answered, live until time 100. *)
Definition answered7 : Negotiator :=
  with_row negotiator3 7 (mkAnswer (Some [Byte.xaa]) 100 1).

(** Goroutine 0 runs [registerOffer(42, [0x01], 1)], has drawn identifier 7
    and is blocked in the send on bin 1. *)
Definition offer7 : offer := mkOffer 7 42 (Some [Byte.x01]).

Definition blocked7 : system :=
  mkSystem
    (set_offerBins negotiator3 (<[1 := [(0%nat, offer7)]]> (offerBins negotiator3)))
    {[ 0%nat := G_registerOffer (RO_send [1] 1 offer7) ]}.

Definition to_blocked7 : list event :=
  [ Ev_go_registerOffer 0 42 (Some [Byte.x01]) [1]; Ev_ro_enter 0 (Some 7) ].

(** ... and goroutine 1 runs [nextOffer(1)] and is about to probe bin 1. *)
Definition polled7 : system :=
  mkSystem (neg blocked7)
    (<[ 1%nat := G_nextOffer (NO_select 1 [1; 3; 5; 7]) ]> (pool blocked7)).

Definition to_polled7 : list event :=
  to_blocked7 ++ [ Ev_go_nextOffer 1 1; Ev_no_enter 1 [1; 2; 3; 4; 5; 6; 7] ].

(** [uint64] of an out-of-range float where the conversion saturates (arm64). *)
Definition arm64 : Z := 2 ^ 64 - 1.

(** Goroutine 0 is blocked in the send on bin 1 as before, and goroutine 1
    is about to run [nextOffer(0)]. *)
Definition polled0 : system :=
  mkSystem (neg blocked7) (<[ 1%nat := G_nextOffer (NO_call 0) ]> (pool blocked7)).

(** User 42 owns the answered offer 7; and, the other way round, a row stored
    under 42 whose owner field is 7. *)
Definition owned7 : Negotiator :=
  with_row negotiator3 7 (mkAnswer (Some [Byte.xaa]) 100 42).

Definition crossed7 : Negotiator :=
  with_row negotiator3 42 (mkAnswer (Some [Byte.xaa]) 100 7).

(** A row is stale at time [now] for [nextOffer] when it is missing or its
    expiry lies before [now] (lines 135-141). *)
Definition stale (n : Negotiator) (now : Z) (o : offer) : Prop :=
  answers n !! offer_id o = None ∨
  ∃ a, answers n !! offer_id o = Some a ∧ expiry a < now.

(** A returned goroutine holds what the code can return: the errors of its
    own operation, and zero values beside an error. *)
Definition ret_wf (g : goroutine) : Prop :=
  match g with
  | G_registerOffer (RO_ret offerID err) =>
      err = None ∨
      (offerID = 0 ∧ (err = Some ErrBadGroupID ∨ err = Some ErrRNGError))
  | G_nextOffer (NO_ret offerID sdp err) =>
      err = None ∨ (offerID = 0 ∧ sdp = None ∧ err = Some ErrNoOfferAvailable)
  | _ => True
  end.

(** ** The HTTP transport of the negotiator (type API) *)

#[global] Instance byte_eq_decision : EqDecision Byte.byte :=
  Stdlib.Strings.Byte.byte_eq_dec.

#[global] Instance error_eq_decision : EqDecision error.
Proof. solve_decision. Defined.

(** What the Go libraries compute for the handlers: [strconv.ParseUint(s, 16,
    64)], [base64.StdEncoding.DecodeString] (a non-nil slice, or an error),
    [base64.StdEncoding.EncodeToString], [fmt.Sprintf("%x", n)] and HMAC-SHA256
    of a message under a key. *)
Record GoLib := mkGoLib {
  ParseUint16 : string → option Z;
  DecodeString : string → option (list Byte.byte);
  EncodeToString : list Byte.byte → string;
  Sprintf_x : Z → string;
  hmac_sha256 : list Byte.byte → list Byte.byte → list Byte.byte
}.

(** The two tables of the API.  Its fiber application is not modelled, and
    a handler takes the callback it calls as an argument. *)
Record API := mkAPI {
  userpass : gmap Z string;
  groupSecret : gmap Z string
}.

(** [c.SendStatus(code)], or [c.Status(code).JSON(fiber.Map{...})]. *)
Inductive response :=
  | SendStatus (code : Z)
  | JSON (code : Z) (fields : list (string * string)).

Definition StatusOK : Z := 200.
Definition StatusNotFound : Z := 404.
Definition StatusInternalServerError : Z := 500.

(** [err.Error()] for the errors of the Negotiator (lines 12-21). *)
Definition error_string (e : error) : string :=
  match e with
  | ErrNotAuthenticated => "not authenticated"
  | ErrBadGroupID => "bad group ID"
  | ErrRNGError => "random number generation error"
  | ErrInvalidOfferID => "invalid offer ID"
  | ErrNoOfferAvailable => "no offer available yet"
  | ErrAnswerPending => "answer is pending for the specified offer"
  | ErrAnswerRepeated => "answer is already registered for the specified offer"
  | ErrNoAccess => "no access to the specified offer"
  end.

Definition error_response (e : error) : response :=
  JSON StatusInternalServerError
    [("status", "error"); ("reference", error_string e)].

Definition pending_response : response :=
  JSON StatusNotFound [("status", "pending")].

(** The posted forms, as [c.BodyParser] fills them. *)
Record offerNewForm := mkOfferNewForm {
  on_SDP : string; on_HMAC : string; on_UID : string; on_Groups : list Z
}.

Record offerNextForm := mkOfferNextForm { ox_GID : string; ox_Secret : string }.

Record answerNewForm := mkAnswerNewForm {
  an_GID : string; an_Secret : string; an_OfferID : string; an_SDP : string
}.

Record answerLookupForm := mkAnswerLookupForm {
  al_OfferID : string; al_UID : string; al_HMAC : string
}.

(** verifyHMAC.  Past the first test [ok] is true, so the second test
    [if !ok] of the source never fires. *)
Definition verifyHMAC (lib : GoLib) (a : API) (uid : Z)
    (offer mac : list Byte.byte) : bool :=
  match userpass a !! uid with
  | None => false
  | Some secret =>
      bool_decide (hmac_sha256 lib (String.list_byte_of_string secret) offer = mac)
  end.

(** Line [if secret, ok := a.groupSecret[gid]; !ok || secret != postForm.Secret]. *)
Definition group_denied (a : API) (gid : Z) (secret : string) : bool :=
  match groupSecret a !! gid with
  | None => true
  | Some s => bool_decide (s ≠ secret)
  end.

Section Handlers.

(** The callbacks act on some state [S] of the broker behind the API. *)
Context {S : Type}.
Variable lib : GoLib.
Variable a : API.

(** [req] is [None] when [c.BodyParser] fails. *)
Definition API_registerOffer
    (registerOfferCallback : Z → slice → list Z → S → S * (Z * option error))
    (req : option offerNewForm) (st : S) : S * response :=
  match req with
  | None => (st, SendStatus StatusNotFound)
  | Some postForm =>
  match ParseUint16 lib (on_UID postForm) with
  | None => (st, SendStatus StatusNotFound)
  | Some uid =>
  match DecodeString lib (on_SDP postForm) with
  | None => (st, SendStatus StatusNotFound)
  | Some offer0 =>
  match DecodeString lib (on_HMAC postForm) with
  | None => (st, SendStatus StatusNotFound)
  | Some hmac =>
      if negb (verifyHMAC lib a uid offer0 hmac) then (st, SendStatus StatusNotFound)
      else
        let '(st', (offerID, err)) :=
          registerOfferCallback uid (Some offer0) (on_Groups postForm) st in
        match err with
        | Some e => (st', error_response e)
        | None =>
            (st', JSON StatusOK
                    [("status", "success"); ("offer_id", Sprintf_x lib offerID)])
        end
  end end end end.

Definition API_nextOffer
    (nextOfferCallback : Z → S → S * (Z * slice * option error))
    (req : option offerNextForm) (st : S) : S * response :=
  match req with
  | None => (st, SendStatus StatusNotFound)
  | Some postForm =>
  match ParseUint16 lib (ox_GID postForm) with
  | None => (st, SendStatus StatusNotFound)
  | Some gid =>
      if group_denied a gid (ox_Secret postForm) then (st, SendStatus StatusNotFound)
      else
        let '(st', (offerID, offer0, err)) := nextOfferCallback gid st in
        match err with
        | Some e =>
            if bool_decide (e = ErrNoOfferAvailable) then (st', pending_response)
            else (st', error_response e)
        | None =>
            (st', JSON StatusOK
                    [("status", "success"); ("offer_id", Sprintf_x lib offerID);
                     ("offer", EncodeToString lib (default [] offer0))])
        end
  end end.

Definition API_registerAnswer
    (registerAnswerCallback : Z → slice → S → S * option error)
    (req : option answerNewForm) (st : S) : S * response :=
  match req with
  | None => (st, SendStatus StatusNotFound)
  | Some postForm =>
  match ParseUint16 lib (an_GID postForm) with
  | None => (st, SendStatus StatusNotFound)
  | Some gid =>
      if group_denied a gid (an_Secret postForm) then (st, SendStatus StatusNotFound)
      else
  match ParseUint16 lib (an_OfferID postForm) with
  | None => (st, SendStatus StatusNotFound)
  | Some offerID =>
  match DecodeString lib (an_SDP postForm) with
  | None => (st, SendStatus StatusNotFound)
  | Some answer0 =>
      let '(st', err) := registerAnswerCallback offerID (Some answer0) st in
      match err with
      | Some e => (st', error_response e)
      | None => (st', JSON StatusOK [("status", "success")])
      end
  end end end end.

(** The handler passes [(offerID, uid)] to a callback declared as
    [func(user, offerID uint64)]. *)
Definition API_lookupAnswer
    (lookupAnswerCallback : Z → Z → S → S * (slice * option error))
    (req : option answerLookupForm) (st : S) : S * response :=
  match req with
  | None => (st, SendStatus StatusNotFound)
  | Some postForm =>
  match ParseUint16 lib (al_OfferID postForm) with
  | None => (st, SendStatus StatusNotFound)
  | Some offerID =>
  match ParseUint16 lib (al_UID postForm) with
  | None => (st, SendStatus StatusNotFound)
  | Some uid =>
  match DecodeString lib (al_HMAC postForm) with
  | None => (st, SendStatus StatusNotFound)
  | Some hmac =>
      if negb (verifyHMAC lib a uid
                 (String.list_byte_of_string (al_OfferID postForm)) hmac)
      then (st, SendStatus StatusNotFound)
      else
        let '(st', (answer0, err)) := lookupAnswerCallback offerID uid st in
        match err with
        | Some e =>
            if bool_decide (e = ErrAnswerPending) then (st', pending_response)
            else (st', error_response e)
        | None =>
            (st', JSON StatusOK
                    [("status", "success");
                     ("answer", EncodeToString lib (default [] answer0))])
        end
  end end end end.

End Handlers.

(** What HookToAPI binds for the two table operations: the method values
    [n.registerAnswer] and [n.lookupAnswer], the latter of type
    [func(user, offerID uint64)]. *)
Definition registerAnswer_callback (offerID : Z) (sdp : slice) (n : Negotiator)
  : Negotiator * option error :=
  registerAnswer n offerID sdp.

Definition lookupAnswer_callback (usr offerID : Z) (n : Negotiator)
  : Negotiator * (slice * option error) :=
  lookupAnswer n usr offerID.

(** A stand-in for the libraries, used in examples only: it reads the hex
    strings "7" and "2a", codes bytes as themselves, and tags a message by
    prefixing the key (no real MAC). *)
Definition example_lib : GoLib :=
  mkGoLib
    (λ s, if String.eqb s "7" then Some 7
          else if String.eqb s "2a" then Some 42 else None)
    (λ s, Some (String.list_byte_of_string s))
    String.string_of_list_byte
    (λ n, if n =? 7 then "7" else "2a")
    (λ key msg, key ++ msg).

(** User 42 has password "pw"; group 42 has secret "gs". *)
Definition example_api : API := mkAPI {[ 42 := "pw" ]} {[ 42 := "gs" ]}.

(** ** The edge server's side of the HTTP transport (type Server) *)

Record Server := mkServer {
  Secret : string;
  GroupID : Z;
  ServerAddr : string;
  SNI : string;
  InsecureSkipVerify : bool;
  InsecurePlainHTTP : bool;
  Logger : bool;              (* [s.Logger != nil] *)
  nextOfferHandler : bool;    (* [s.nextOfferHandler != nil] *)
  WaitAfterSuccess : Z;
  WaitAfterPending : Z;
  WaitAfterError : Z
}.

(** [5 * time.Second], in nanoseconds. *)
Definition defaultWaitAfterPending : Z := 5 * 1000000000.

(** The error values [readNextOffer] returns: the two of the package, an
    error of package rtcsocks, and the ones made by [fmt.Errorf]. *)
Inductive plugin_error :=
  | ErrInvalidServerAddr
  | ErrInvalidResponseFormat
  | Err_rtcsocks (e : error)
  | Err_POST (url : string)
  | Err_nonHex (offerIDHex : string)
  | Err_base64
  | Err_status (url status reference : string).

(** What the loop does to the outside: log lines (by level), sleeps, requests
    and calls of the handler. *)
Inductive effect :=
  | Warnf
  | Debugf
  | Errorf
  | Sleep (d : Z)
  | POST (url : string) (form : list (string * string)) (insecure : bool)
      (sni : string)
  | Handler (offerID : Z) (offer0 : slice).

(** The response of [/rtcsocks/offer/next], as [json.Unmarshal] fills it. *)
Record nextResponse := mkNextResponse {
  nr_Status : string;
  nr_OfferIDHex : string;
  nr_OfferB64 : string;
  nr_Reference : string
}.

Section ServerLoop.

Variable lib : GoLib.
(** [json.Unmarshal] of a response body; [None] is an error. *)
Variable Unmarshal : list Byte.byte → option nextResponse.
Variable s : Server.

(** [s.insecureWarnOnce.Do(...)]: [warned] tells whether it has run. *)
Definition insecureWarn (warned : bool) : list effect :=
  if warned then []
  else if (InsecureSkipVerify s || InsecurePlainHTTP s) && Logger s then [Warnf]
  else [].

Definition log (e : effect) : list effect := if Logger s then [e] else [].

Definition serverUrl (path : string) : string :=
  if negb (InsecurePlainHTTP s) then "https://" +:+ (ServerAddr s +:+ path)
  else "http://" +:+ (ServerAddr s +:+ path).

(** readNextOffer.  [posted] is what [utils.POST] returns for the request:
    the body of the response, or [None] for an error. *)
Definition readNextOffer (warned : bool) (posted : option (list Byte.byte))
  : (Z * slice * option plugin_error) * bool * list effect :=
  if String.eqb (ServerAddr s) "" then
    ((0, None, Some ErrInvalidServerAddr), warned, [])
  else
    let url := serverUrl "/rtcsocks/offer/next" in
    let postForm := [("gid", Sprintf_x lib (GroupID s)); ("secret", Secret s)] in
    let effs :=
      insecureWarn warned ++ log Debugf ++
      [POST url postForm (InsecureSkipVerify s) (SNI s)] in
    match posted with
    | None => ((0, None, Some (Err_POST url)), true, effs)
    | Some resp =>
        match Unmarshal resp with
        | None => ((0, None, Some ErrInvalidResponseFormat), true, effs)
        | Some responseData =>
            if String.eqb (nr_Status responseData) "success" then
              match ParseUint16 lib (nr_OfferIDHex responseData) with
              | None =>
                  ((0, None, Some (Err_nonHex (nr_OfferIDHex responseData))),
                   true, effs)
              | Some offerID =>
                  match DecodeString lib (nr_OfferB64 responseData) with
                  | None => ((0, None, Some Err_base64), true, effs)
                  | Some offer0 => ((offerID, Some offer0, None), true, effs)
                  end
              end
            else if String.eqb (nr_Status responseData) "pending" then
              ((0, None, Some (Err_rtcsocks ErrNoOfferAvailable)), true, effs)
            else
              ((0, None,
                Some (Err_status url (nr_Status responseData)
                        (nr_Reference responseData))),
               true, effs)
        end
    end.

(** One pass through the body of the [for] of loopReadNextOffer.  [handler_err]
    tells whether the handler, if it is called, returns an error.  The
    boolean of the result tells whether the loop goes on. *)
Definition loop_body (warned : bool) (posted : option (list Byte.byte))
    (handler_err : bool) : bool * bool * list effect :=
  let '((offerID, offer0, err), warned', effs) := readNextOffer warned posted in
  let '(goes_on, effs_err) :=
    match err with
    | None => (true, [])
    | Some (Err_rtcsocks ErrNoOfferAvailable) =>
        (true,
         log Debugf ++
         [Sleep (if 0 <? WaitAfterPending s then WaitAfterPending s
                 else defaultWaitAfterPending)])
    | Some _ =>
        if 0 <? WaitAfterError s then (true, log Errorf ++ [Sleep (WaitAfterError s)])
        else (false, log Errorf)
    end in
  if negb goes_on then (false, warned', effs ++ effs_err)
  else
    (true, warned',
     effs ++ effs_err ++ log Debugf ++
     (if nextOfferHandler s then
        Handler offerID offer0 :: (if handler_err then log Errorf else [])
      else log Warnf) ++
     (if 0 <? WaitAfterSuccess s then [Sleep (WaitAfterSuccess s)] else [])).

(** loopReadNextOffer over the outcomes of its successive polls.  The result
    tells whether the loop has returned, how many polls it made, and what it
    did. *)
Fixpoint loopReadNextOffer (warned : bool)
    (polls : list (option (list Byte.byte) * bool))
  : bool * nat * list effect :=
  match polls with
  | [] => (false, 0%nat, [])
  | (posted, handler_err) :: rest =>
      let '(goes_on, warned', effs) := loop_body warned posted handler_err in
      if goes_on then
        let '(returned, k, effs') := loopReadNextOffer warned' rest in
        (returned, Datatypes.S k, effs ++ effs')
      else (true, 1%nat, effs)
  end.

End ServerLoop.

(** The number of calls of the handler among some effects. *)
Definition handler_calls (effs : list effect) : list (Z * slice) :=
  omap (λ e, match e with Handler offerID offer0 => Some (offerID, offer0)
                        | _ => None end) effs.

(** ** The TLS server name of the SDK's HTTP client (utils, reqClient) *)

(** [strings.LastIndex(addr, ":")]; [None] stands for -1. *)
Fixpoint LastIndex_colon (addr : string) : option nat :=
  match addr with
  | EmptyString => None
  | String c rest =>
      match LastIndex_colon rest with
      | Some i => Some (Datatypes.S i)
      | None => if Ascii.eqb c ":"%char then Some 0%nat else None
      end
  end.

(** [hostname := addr[:colonPos]], with [colonPos = len(addr)] when there is
    no colon. *)
Definition dial_hostname (addr : string) : string :=
  match LastIndex_colon addr with
  | Some colonPos => String.substring 0 colonPos addr
  | None => addr
  end.

(** The [ServerName] of the uTLS configuration built in [SetDialTLS]. *)
Definition dial_ServerName (addr : string) (SNI : list string) : string :=
  match SNI with
  | sni :: _ => if String.eqb sni "" then dial_hostname addr else sni
  | [] => dial_hostname addr
  end.

(** ** The client's side of the HTTP transport (type Client) *)

Record Client := mkClient {
  UserID : Z;
  Password : string;
  Client_ServerAddr : string;
  Client_SNI : string;
  Client_InsecureSkipVerify : bool;
  Client_InsecurePlainHTTP : bool;
  Client_Logger : bool        (* [c.Logger != nil] *)
}.

(** User 42 with password "pw", talking to "broker" over HTTPS. *)
Definition example_client : Client := mkClient 42 "pw" "broker" "" false false false.

(** The form of [Client.RegisterOffer] (lines 52-61) as the handler's
    [c.BodyParser] reads it: JSON carries the two byte arrays as base64
    strings. *)
Definition Client_RegisterOffer_form (lib : GoLib) (c : Client)
    (offer0 : list Byte.byte) (groupID : list Z) : offerNewForm :=
  mkOfferNewForm
    (EncodeToString lib offer0)
    (EncodeToString lib
       (hmac_sha256 lib (String.list_byte_of_string (Password c)) offer0))
    (Sprintf_x lib (UserID c))
    groupID.

(** The form of [Client.LookupAnswer] (lines 120-129): the HMAC is taken over
    the hex string of the offer ID. *)
Definition Client_LookupAnswer_form (lib : GoLib) (c : Client) (offerID : Z)
  : answerLookupForm :=
  mkAnswerLookupForm
    (Sprintf_x lib offerID)
    (Sprintf_x lib (UserID c))
    (EncodeToString lib
       (hmac_sha256 lib (String.list_byte_of_string (Password c))
          (String.list_byte_of_string (Sprintf_x lib offerID)))).

(** ** The answer table *)

Section AnswerTable.

Implicit Types (n : Negotiator) (a : answer) (sdp : slice).

Lemma registerAnswer_absent n offerID sdp :
  answers n !! offerID = None →
  registerAnswer n offerID sdp = (n, Some ErrInvalidOfferID).
Proof. intros H. unfold registerAnswer. by rewrite H. Qed.

Lemma registerAnswer_present n offerID sdp a b :
  answers n !! offerID = Some a → body a = Some b →
  registerAnswer n offerID sdp = (n, Some ErrAnswerRepeated).
Proof. intros H Hb. unfold registerAnswer. by rewrite H, Hb. Qed.

Lemma registerAnswer_fresh n offerID sdp a :
  answers n !! offerID = Some a → body a = None →
  registerAnswer n offerID sdp =
    (set_answers n (<[offerID := mkAnswer sdp (expiry a) (user a)]> (answers n)),
     None).
Proof. intros H Hb. unfold registerAnswer. by rewrite H, Hb. Qed.

Lemma registerAnswer_seq_repeated n offerID sdps a b :
  answers n !! offerID = Some a → body a = Some b →
  registerAnswer_seq n offerID sdps =
    (n, replicate (length sdps) (Some ErrAnswerRepeated)).
Proof.
  intros H Hb. induction sdps as [|sdp rest IH]; [done|].
  cbn [registerAnswer_seq]. rewrite (registerAnswer_present _ _ _ _ _ H Hb).
  by rewrite IH.
Qed.

End AnswerTable.

(** ** register-answer *)

Lemma registerAnswer_error n offerID sdp n' e :
  registerAnswer n offerID sdp = (n', Some e) → n' = n.
Proof.
  unfold registerAnswer. destruct (answers n !! offerID) as [a|]; [|congruence].
  destruct (body a); congruence.
Qed.

Lemma registerAnswer_success_body n offerID sdp n' :
  registerAnswer n offerID sdp = (n', None) →
  ∃ a, answers n !! offerID = Some a ∧ body a = None ∧
       answers n' !! offerID = Some (mkAnswer sdp (expiry a) (user a)).
Proof.
  unfold registerAnswer. destruct (answers n !! offerID) as [a|] eqn:Ha; [|congruence].
  destruct (body a) eqn:Hb; [congruence|]. intros [= <-].
  exists a. split_and!; [done..|]. cbn. by rewrite lookup_insert_eq.
Qed.

Lemma successes_replicate_error k e : successes (replicate k (Some e)) = 0%nat.
Proof. induction k as [|k IH]; [done|]. exact IH. Qed.

Lemma registerAnswer_seq_once n offerID sdps :
  Forall is_Some sdps →
  (successes (registerAnswer_seq n offerID sdps).2 ≤ 1)%nat.
Proof.
  intros Hall. revert n. induction Hall as [|sdp rest [b ->] _ IH]; intros n.
  { cbn. lia. }
  cbn [registerAnswer_seq].
  destruct (registerAnswer n offerID (Some b)) as [n1 [e|]] eqn:Hr.
  - apply registerAnswer_error in Hr as ->. specialize (IH n).
    destruct (registerAnswer_seq n offerID rest) as [n2 es]. cbn [snd] in *.
    done.
  - apply registerAnswer_success_body in Hr as (a & _ & _ & Hrow).
    rewrite (registerAnswer_seq_repeated _ _ _ _ b Hrow eq_refl).
    cbn [snd]. change (successes (None :: ?l)) with (S (successes l)).
    by rewrite successes_replicate_error.
Qed.

(** C3 (as amended): [registerAnswer] fails with [ErrInvalidOfferID] when the
    offer ID has no row and with [ErrAnswerRepeated] when the row's body is
    non-nil; otherwise it stores the SDP as the body, leaves the expiry and
    the owner of the row as they were, touches no other row and succeeds.
    Consequently, in a run of [registerAnswer] calls on one offer ID, once a
    call carrying a non-nil SDP has succeeded every later call returns
    [ErrAnswerRepeated] and changes nothing, and among calls that all carry a
    non-nil SDP at most one succeeds. *)
Theorem registerAnswer_spec (n : Negotiator) (offerID : Z) (sdp : slice) :
  (answers n !! offerID = None →
     registerAnswer n offerID sdp = (n, Some ErrInvalidOfferID)) ∧
  (∀ a b, answers n !! offerID = Some a → body a = Some b →
     registerAnswer n offerID sdp = (n, Some ErrAnswerRepeated)) ∧
  (∀ a, answers n !! offerID = Some a → body a = None →
     ∃ n', registerAnswer n offerID sdp = (n', None) ∧
       answers n' !! offerID = Some (mkAnswer sdp (expiry a) (user a)) ∧
       (∀ k, k ≠ offerID → answers n' !! k = answers n !! k) ∧
       offerBins n' = offerBins n) ∧
  (∀ n' b later, sdp = Some b → registerAnswer n offerID sdp = (n', None) →
     registerAnswer_seq n' offerID later =
       (n', replicate (length later) (Some ErrAnswerRepeated))) ∧
  (∀ sdps, Forall is_Some sdps →
     (successes (registerAnswer_seq n offerID sdps).2 ≤ 1)%nat).
Proof.
  split_and!.
  - apply registerAnswer_absent.
  - intros a b. apply registerAnswer_present.
  - intros a Ha Hb. eexists. split; [by apply registerAnswer_fresh|].
    cbn. split_and!; [by rewrite lookup_insert_eq| |done].
    intros k Hk. by rewrite lookup_insert_ne.
  - intros n' b later -> Hr.
    apply registerAnswer_success_body in Hr as (a & _ & _ & Hrow).
    by apply (registerAnswer_seq_repeated _ _ _ _ b Hrow).
  - apply registerAnswer_seq_once.
Qed.

(** C10: on a row whose body is nil, [registerAnswer] with a nil SDP succeeds
    and leaves the row as it was: the owner's [lookupAnswer] still returns
    [ErrAnswerPending], and a further [registerAnswer] on the same offer ID
    succeeds again, whatever it carries. *)
Theorem registerAnswer_nil_not_once (n : Negotiator) (offerID : Z) (a : answer) :
  answers n !! offerID = Some a → body a = None →
  ∃ n', registerAnswer n offerID None = (n', None) ∧
    answers n' !! offerID = Some a ∧
    lookupAnswer n' (user a) offerID = (n', (None, Some ErrAnswerPending)) ∧
    ∀ sdp, (registerAnswer n' offerID sdp).2 = None.
Proof.
  intros Ha Hb. eexists. split; [by apply registerAnswer_fresh|].
  assert (mkAnswer None (expiry a) (user a) = a) as Hrow.
  { destruct a as [bd ex us]. cbn in Hb. by subst bd. }
  rewrite Hrow.
  assert (answers (set_answers n (<[offerID:=a]> (answers n))) !! offerID = Some a)
    as Hlk by (cbn; by rewrite lookup_insert_eq).
  split_and!; [done| |].
  - unfold lookupAnswer. rewrite Hlk, Hb.
    by rewrite bool_decide_eq_false_2 by (intros H; by apply H).
  - intros sdp. by rewrite (registerAnswer_fresh _ _ _ _ Hlk Hb).
Qed.

Lemma registerAnswer_nil_not_once_witness :
  ∃ n', registerAnswer pending7 7 None = (n', None) ∧
    answers n' !! 7 = Some (mkAnswer None 10 42) ∧
    lookupAnswer n' 42 7 = (n', (None, Some ErrAnswerPending)) ∧
    ∀ sdp, (registerAnswer n' 7 sdp).2 = None.
Proof.
  apply (registerAnswer_nil_not_once pending7 7 (mkAnswer None 10 42)); reflexivity.
Defined.

(** C3 fails as stated: two [registerAnswer] calls with a nil SDP on the same
    pending row both succeed; the second one is not refused. *)
Lemma registerAnswer_twice_counterexample :
  answers pending7 !! 7 = Some (mkAnswer None 10 42) ∧
  (registerAnswer_seq pending7 7 [None; None]).2 = [None; None] ∧
  successes (registerAnswer_seq pending7 7 [None; None]).2 = 2%nat.
Proof. split_and!; reflexivity. Qed.

(** ** lookup-answer *)

(** C4: [lookupAnswer] fails with [ErrInvalidOfferID] when the offer ID has no
    row, with [ErrNoAccess] when the caller is not the owner of the row
    (whether or not the body is there), with [ErrAnswerPending] when the
    owner asks and the body is nil; otherwise it returns the body.  It never
    changes the Negotiator, so a repeated lookup returns the same result. *)
Theorem lookupAnswer_spec (n : Negotiator) (usr offerID : Z) :
  (lookupAnswer n usr offerID).1 = n ∧
  (answers n !! offerID = None →
     (lookupAnswer n usr offerID).2 = (None, Some ErrInvalidOfferID)) ∧
  (∀ a, answers n !! offerID = Some a → user a ≠ usr →
     (lookupAnswer n usr offerID).2 = (None, Some ErrNoAccess)) ∧
  (∀ a, answers n !! offerID = Some a → user a = usr → body a = None →
     (lookupAnswer n usr offerID).2 = (None, Some ErrAnswerPending)) ∧
  (∀ a b, answers n !! offerID = Some a → user a = usr → body a = Some b →
     (lookupAnswer n usr offerID).2 = (Some b, None)) ∧
  lookupAnswer (lookupAnswer n usr offerID).1 usr offerID = lookupAnswer n usr offerID.
Proof.
  assert ((lookupAnswer n usr offerID).1 = n) as Hsame.
  { unfold lookupAnswer. destruct (answers n !! offerID) as [a|]; [|done].
    case_bool_decide; [done|]. by destruct (body a). }
  split_and!; [done| | | | |by rewrite Hsame].
  - intros H. unfold lookupAnswer. by rewrite H.
  - intros a H Hu. unfold lookupAnswer. rewrite H.
    by rewrite bool_decide_eq_true_2.
  - intros a H Hu Hb. unfold lookupAnswer. rewrite H, Hb.
    by rewrite bool_decide_eq_false_2 by (intros Hne; by apply Hne).
  - intros a b H Hu Hb. unfold lookupAnswer. rewrite H, Hb.
    by rewrite bool_decide_eq_false_2 by (intros Hne; by apply Hne).
Qed.

(** ** The sweeper *)

Lemma purge_fold_lookup (now : Z → Z) (rows0 rows : gmap Z answer) (k : Z) :
  map_fold (purge_row now) rows0 rows !! k =
    match rows !! k with
    | Some a => if expiry a <? now k then None else rows0 !! k
    | None => rows0 !! k
    end.
Proof.
  revert rows.
  apply (map_fold_weak_ind
           (λ r m, r !! k = match m !! k with
                            | Some a => if expiry a <? now k then None else rows0 !! k
                            | None => rows0 !! k
                            end)).
  - by rewrite lookup_empty.
  - intros i a m r Hi IH. unfold purge_row.
    destruct (decide (i = k)) as [->|Hne].
    + rewrite lookup_insert_eq. rewrite Hi in IH.
      destruct (expiry a <? now k); [by rewrite lookup_delete_eq|done].
    + rewrite lookup_insert_ne by done.
      destruct (expiry a <? now i); [by rewrite lookup_delete_ne|done].
Qed.

(** C8: one sweeper cycle, which runs as a whole under the table lock,
    removes exactly the rows whose expiry lies before the time read when the
    row is inspected; every other row stays, unchanged, and no row appears.
    The bins are not touched. *)
Theorem autoPurge_cycle_spec (n : Negotiator) (now : Z → Z) :
  (∀ k a, answers n !! k = Some a → expiry a < now k →
     answers (autoPurge_cycle n now) !! k = None) ∧
  (∀ k a, answers n !! k = Some a → ¬ expiry a < now k →
     answers (autoPurge_cycle n now) !! k = Some a) ∧
  (∀ k, answers n !! k = None → answers (autoPurge_cycle n now) !! k = None) ∧
  offerBins (autoPurge_cycle n now) = offerBins n.
Proof.
  split_and!; [| | |done].
  - intros k a Ha Hexp. cbn. rewrite purge_fold_lookup, Ha.
    by rewrite (proj2 (Z.ltb_lt _ _) Hexp).
  - intros k a Ha Hexp. cbn. rewrite purge_fold_lookup, Ha.
    by rewrite (proj2 (Z.ltb_ge _ _)) by lia.
  - intros k Ha. cbn. by rewrite purge_fold_lookup, Ha.
Qed.

(** ** register-offer: the create step *)

Lemma registerOffer_enter_table_blind cvt n rows tid rnd usr sdp groups :
  registerOffer_enter cvt (set_answers n rows) tid rnd usr sdp groups =
    (set_answers (registerOffer_enter cvt n tid rnd usr sdp groups).1 rows,
     (registerOffer_enter cvt n tid rnd usr sdp groups).2).
Proof.
  unfold registerOffer_enter. cbn.
  destruct (binID_of cvt (maxGroupID n) groups =? 0); [done|].
  destruct rnd as [offerID|]; [|done]. cbn. unfold chan_send. cbn.
  by destruct (offerBins n !! _).
Qed.

(** C2 (as amended): [registerOffer] makes no collision check.  What it does
    before the send (the bin, the errors, the queued offer) does not depend
    on the answer table, and the create step writes the row of the minted
    identifier unconditionally: body nil, expiry = now + TTL, user = the
    offerer, whatever row was stored under that identifier before; the other
    rows are unchanged and the call returns the identifier with a nil error. *)
Theorem registerOffer_store_overwrites (cvt : Z) (n : Negotiator) (now : Z) (o : offer) :
  (∀ rows tid rnd usr sdp groups,
     registerOffer_enter cvt (set_answers n rows) tid rnd usr sdp groups =
       (set_answers (registerOffer_enter cvt n tid rnd usr sdp groups).1 rows,
        (registerOffer_enter cvt n tid rnd usr sdp groups).2)) ∧
  (registerOffer_store n now o).2 = RO_ret (offer_id o) None ∧
  answers (registerOffer_store n now o).1 !! offer_id o =
    Some (mkAnswer None (now + ttl n) (offer_user o)) ∧
  (∀ k, k ≠ offer_id o →
     answers (registerOffer_store n now o).1 !! k = answers n !! k) ∧
  offerBins (registerOffer_store n now o).1 = offerBins n.
Proof.
  split_and!; [|done| | |done].
  - intros. apply registerOffer_enter_table_blind.
  - cbn. by rewrite lookup_insert_eq.
  - intros k Hk. cbn. by rewrite lookup_insert_ne.
Qed.

(** C2 fails as stated: user 2 registers an offer for group 1 and the random
    source mints identifier 7, under which the answered, live row of user 1
    is stored (expiry 100, it is time 5).  Once a server has taken the offer
    the call returns 7 with a nil error, and the row of user 1 has been
    replaced by an empty row of user 2. *)
Lemma registerOffer_collision_counterexample :
  answers answered7 !! 7 = Some (mkAnswer (Some [Byte.xaa]) 100 1) ∧
  (s ← run amd64
         [ Ev_go_registerOffer 0 2 (Some [Byte.x01]) [1];
           Ev_ro_enter 0 (Some 7);
           Ev_go_nextOffer 1 1;
           Ev_no_enter 1 [1; 2; 3; 4; 5; 6; 7];
           Ev_no_select 1;
           Ev_ro_store 0 5 ]
         (mkSystem answered7 ∅);
   Some (pool s !! 0%nat, answers (neg s) !! 7)) =
  Some (Some (G_registerOffer (RO_ret 7 None)), Some (mkAnswer None 15 2)).
Proof. split; vm_compute; reflexivity. Qed.

(** ** The group bitmap *)

Section Bitmap.

Variable cvt : Z.

Lemma land_pow2 (e b : Z) :
  0 ≤ e → Z.land (2 ^ e) b = if Z.testbit b e then 2 ^ e else 0.
Proof.
  intros He. apply Z.bits_inj'. intros k Hk.
  rewrite Z.land_spec, Z.pow2_bits_eqb by done.
  destruct (Z.eqb_spec e k) as [->|Hne].
  - destruct (Z.testbit b k); [|by rewrite Z.bits_0].
    by rewrite Z.pow2_bits_eqb, Z.eqb_refl.
  - cbn. destruct (Z.testbit b e); [|by rewrite Z.bits_0].
    rewrite Z.pow2_bits_eqb by done. symmetry. by apply Z.eqb_neq.
Qed.

Lemma pow2_u64_valid (g : Z) :
  1 ≤ g ≤ 64 → pow2_u64 cvt (u64 (g - 1)) = 2 ^ (g - 1).
Proof.
  intros Hg. unfold pow2_u64, u64. rewrite Z.mod_small by lia.
  rewrite (proj2 (Z.ltb_ge _ _)) by lia. by rewrite (proj2 (Z.ltb_lt _ _)) by lia.
Qed.

Lemma eligible_testbit (g b : Z) :
  1 ≤ g ≤ 64 → eligible cvt g b ↔ Z.testbit b (g - 1) = true.
Proof.
  intros Hg. unfold eligible. rewrite pow2_u64_valid, land_pow2 by lia.
  destruct (Z.testbit b (g - 1)); [|split; [lia|done]].
  split; [done|]. intros _. apply Z.pow_pos_nonneg; lia.
Qed.

Lemma binID_fold_testbit (G : Z) (groups : list Z) (acc k : Z) :
  Z.testbit (fold_left (binID_step cvt G) groups acc) k =
    Z.testbit acc k ||
    existsb (λ g, (g <=? G) && Z.testbit (pow2_u64 cvt (u64 (g - 1))) k) groups.
Proof.
  revert acc. induction groups as [|g rest IH]; intros acc; cbn [fold_left existsb].
  - by rewrite orb_false_r.
  - rewrite IH. unfold binID_step.
    destruct (g <=? G); cbn [andb orb]; [|done].
    by rewrite Z.lor_spec, orb_assoc.
Qed.

Lemma binID_of_member (G : Z) (groups : list Z) (g : Z) :
  G ≤ 64 → Forall (λ x, 1 ≤ x) groups → 1 ≤ g ≤ 64 →
  Z.testbit (binID_of cvt G groups) (g - 1) = true ↔ g ∈ groups ∧ g ≤ G.
Proof.
  intros HG Hpos Hg. unfold binID_of. rewrite binID_fold_testbit, Z.bits_0.
  cbn [orb]. rewrite existsb_exists. split.
  - intros (x & Hin & Hx). apply andb_true_iff in Hx as [HxG Hbit].
    apply Z.leb_le in HxG.
    assert (1 ≤ x) as Hx1.
    { rewrite Forall_forall in Hpos. apply Hpos. by apply list_elem_of_In. }
    rewrite pow2_u64_valid, Z.pow2_bits_eqb in Hbit by lia.
    apply Z.eqb_eq in Hbit. assert (x = g) as -> by lia.
    split; [by apply list_elem_of_In|done].
  - intros [Hin HgG]. exists g. split; [by apply list_elem_of_In|].
    apply andb_true_iff. split; [by apply Z.leb_le|].
    rewrite pow2_u64_valid, Z.pow2_bits_eqb by lia. apply Z.eqb_refl.
Qed.

Lemma binID_spec_fold_testbit (l : list Z) (acc k : Z) :
  Forall (λ x, 1 ≤ x) l → 0 ≤ k →
  Z.testbit (fold_left (λ b g, Z.lor b (2 ^ (g - 1))) l acc) k =
    Z.testbit acc k || existsb (λ g, g - 1 =? k) l.
Proof.
  intros Hl Hk. revert acc.
  induction Hl as [|g rest Hg _ IH]; intros acc; cbn [fold_left existsb].
  - by rewrite orb_false_r.
  - rewrite IH, Z.lor_spec, Z.pow2_bits_eqb by lia. by rewrite orb_assoc.
Qed.

(** On lists of positive group IDs (and for [G] up to 64) the code computes
    the bin ID of the specification. *)
Lemma binID_of_spec (G : Z) (groups : list Z) :
  G ≤ 64 → Forall (λ x, 1 ≤ x) groups →
  binID_of cvt G groups = binID_spec G groups.
Proof.
  intros HG Hpos. apply Z.bits_inj'. intros k Hk.
  unfold binID_of, binID_spec.
  rewrite binID_fold_testbit, binID_spec_fold_testbit; [|  |done].
  2:{ rewrite Forall_forall. intros x Hx. apply list_elem_of_filter in Hx. lia. }
  f_equal. induction Hpos as [|g rest Hg _ IH]; [done|].
  cbn [existsb]. rewrite IH.
  destruct (Z.leb_spec g G) as [Hle|Hgt]; cbn [andb].
  - rewrite filter_cons_True by lia. cbn [existsb].
    by rewrite pow2_u64_valid, Z.pow2_bits_eqb by lia.
  - by rewrite filter_cons_False by lia.
Qed.

Lemma binID_of_out_of_range (G : Z) (groups : list Z) :
  Forall (λ g, G < g) groups → binID_of cvt G groups = 0.
Proof.
  intros Hall. unfold binID_of. induction Hall as [|g rest Hg _ IH]; [done|].
  cbn [fold_left]. unfold binID_step at 2.
  by rewrite (proj2 (Z.leb_gt _ _) Hg).
Qed.

Lemma registerOffer_bad_group (n : Negotiator) (tid : nat) (rnd : option Z)
    (usr : Z) (sdp : slice) (groups : list Z) :
  binID_of cvt (maxGroupID n) groups = 0 →
  registerOffer_enter cvt n tid rnd usr sdp groups = (n, RO_ret 0 (Some ErrBadGroupID)).
Proof. intros Hb. unfold registerOffer_enter. by rewrite Hb. Qed.

End Bitmap.

(** ** Preservation of the invariants *)

Section Preservation.

Variable cvt : Z.

Lemma wf_update (s : system) (n' : Negotiator) (tid : nat) (g : goroutine) :
  wf cvt s →
  offerBins n' = offerBins (neg s) → maxGroupID n' = maxGroupID (neg s) →
  (∀ groups b o, pool s !! tid ≠ Some (G_registerOffer (RO_send groups b o))) →
  (∀ pc, g = G_nextOffer pc → no_wf cvt pc) →
  wf cvt (mkSystem n' (<[tid := g]> (pool s))).
Proof.
  intros [Hp Hq Hn] Hbins HG Htid Hg. split; cbn; rewrite ?Hbins, ?HG.
  - intros t pc. rewrite lookup_insert. case_decide as Ht.
    + intros [= ->]. by apply Hg.
    + apply Hp.
  - intros b q t o Hb Hin. destruct (Hq _ _ _ _ Hb Hin) as (gs & Hpool & Heq).
    exists gs. split; [|done]. rewrite lookup_insert_ne; [done|].
    intros <-. by eapply Htid.
  - apply Hn.
Qed.

Lemma wf_neg (s : system) (n' : Negotiator) :
  wf cvt s →
  offerBins n' = offerBins (neg s) → maxGroupID n' = maxGroupID (neg s) →
  wf cvt (mkSystem n' (pool s)).
Proof.
  intros [Hp Hq Hn] Hbins HG. split; cbn; rewrite ?Hbins, ?HG; done.
Qed.

Lemma wf_send (s : system) (tid : nat) (usr : Z) (sdp : slice)
    (groups : list Z) (q : chan) (o : offer) :
  wf cvt s →
  pool s !! tid = Some (G_registerOffer (RO_call usr sdp groups)) →
  offerBins (neg s) !! binID_of cvt (maxGroupID (neg s)) groups = Some q →
  wf cvt
    (mkSystem
       (set_offerBins (neg s)
          (<[binID_of cvt (maxGroupID (neg s)) groups := q ++ [(tid, o)]]>
             (offerBins (neg s))))
       (<[tid := G_registerOffer
                   (RO_send groups (binID_of cvt (maxGroupID (neg s)) groups) o)]>
          (pool s))).
Proof.
  intros [Hp Hq Hn] Ht Hb.
  set (b := binID_of cvt (maxGroupID (neg s)) groups) in *.
  assert (∀ o', (tid, o') ∉ q) as Hfresh.
  { intros o' Hin. destruct (Hq _ _ _ _ Hb Hin) as (gs & Hpool & _). congruence. }
  split; cbn.
  - intros t pc. rewrite lookup_insert. case_decide; [done|apply Hp].
  - intros b' q' t o' Hb' Hin. rewrite lookup_insert in Hb'.
    case_decide as Hbb.
    + injection Hb' as <-. subst b'. apply elem_of_app in Hin as [Hin|Hin].
      * destruct (Hq _ _ _ _ Hb Hin) as (gs & Hpool & Heq).
        exists gs. split; [|done]. rewrite lookup_insert_ne; [done|]. congruence.
      * apply list_elem_of_singleton in Hin as [= -> ->].
        exists groups. by rewrite lookup_insert_eq.
    + destruct (Hq _ _ _ _ Hb' Hin) as (gs & Hpool & Heq).
      exists gs. split; [|done]. rewrite lookup_insert_ne; [done|]. congruence.
  - intros b' q' Hb'. rewrite lookup_insert in Hb'. case_decide.
    + injection Hb' as <-. rewrite fmap_app. apply NoDup_app. split_and!.
      * by eapply Hn.
      * intros t Hin1 Hin2. apply list_elem_of_singleton in Hin2 as ->.
        apply list_elem_of_fmap in Hin1 as ([t' o'] & Heq & Hin1).
        cbn in Heq. subst t'. by apply (Hfresh o').
      * apply NoDup_singleton.
    + by eapply Hn.
Qed.

Lemma wf_recv (s : system) (tid : nat) (g b : Z) (rest : list Z)
    (sender : nat) (o : offer) (n' : Negotiator) :
  wf cvt s →
  pool s !! tid = Some (G_nextOffer (NO_select g (b :: rest))) →
  chan_recv (neg s) b = Some ((sender, o), n') →
  wf cvt
    (mkSystem n'
       (<[tid := G_nextOffer (NO_check g (b :: rest) o)]>
          (<[sender := G_registerOffer (RO_store o)]> (pool s)))).
Proof.
  intros [Hp Hq Hn] Ht Hrecv. unfold chan_recv in Hrecv.
  destruct (offerBins (neg s) !! b) as [[|x q]|] eqn:Hb; try done.
  injection Hrecv as -> <-.
  destruct (Hq b _ sender o Hb) as (gs & Hsender & Heq); [by left|].
  pose proof (Hn _ _ Hb) as Hnd. cbn in Hnd. apply NoDup_cons in Hnd as [Hnotin Hnd].
  split; cbn.
  - intros t pc. rewrite !lookup_insert. repeat case_decide; try done.
    + intros [= <-]. by apply (Hp _ _ Ht).
    + apply Hp.
  - intros b' q' t o' Hb' Hin. rewrite lookup_insert in Hb'.
    assert (∃ gs', pool s !! t = Some (G_registerOffer (RO_send gs' b' o')) ∧
                   b' = binID_of cvt (maxGroupID (neg s)) gs' ∧ t ≠ sender)
      as (gs' & Hpool & Heq' & Hts).
    { case_decide as Hbb.
      - injection Hb' as <-. subst b'.
        destruct (Hq b _ t o' Hb) as (gs' & Hpool & Heq'); [by right|].
        exists gs'. split_and!; [done..|]. intros ->. apply Hnotin.
        apply list_elem_of_fmap. by exists (sender, o').
      - destruct (Hq _ _ _ _ Hb' Hin) as (gs' & Hpool & Heq').
        exists gs'. split_and!; [done..|]. intros ->. congruence. }
    exists gs'. split; [|done].
    rewrite !lookup_insert_ne; [done| congruence | congruence].
  - intros b' q' Hb'. rewrite lookup_insert in Hb'. case_decide.
    + by injection Hb' as <-.
    + by eapply Hn.
Qed.

Lemma wf_step (e : event) (s s' : system) :
  wf cvt s → step cvt e s = Some s' → wf cvt s'.
Proof.
  intros Hwf Hstep. destruct e; cbn in Hstep.
  - destruct (pool s !! tid) eqn:Ht; [done|]. injection Hstep as <-.
    apply wf_update; [done..|congruence|by intros pc [=]].
  - destruct (pool s !! tid) eqn:Ht; [done|]. injection Hstep as <-.
    apply wf_update; [done..|congruence|by intros pc [= <-]].
  - destruct (pool s !! tid) as [[[usr sdp groups| | |]|]|] eqn:Ht; try done.
    unfold registerOffer_enter in Hstep.
    destruct (binID_of cvt (maxGroupID (neg s)) groups =? 0).
    { injection Hstep as <-. apply wf_update; [done..|congruence|by intros pc [=]]. }
    destruct rnd as [offerID|].
    2:{ injection Hstep as <-. apply wf_update; [done..|congruence|by intros pc [=]]. }
    unfold chan_send in Hstep.
    destruct (offerBins (neg s) !! binID_of cvt (maxGroupID (neg s)) groups)
      as [q|] eqn:Hb; injection Hstep as <-.
    + by eapply wf_send.
    + apply wf_update; [done..|congruence|by intros pc [=]].
  - destruct (pool s !! tid) as [[[| |o|]|]|] eqn:Ht; try done.
    injection Hstep as <-. apply wf_update; [done..|congruence|by intros pc [=]].
  - destruct (pool s !! tid) as [[|[g| | |]]|] eqn:Ht; try done.
    case_bool_decide; [|done]. injection Hstep as <-.
    apply wf_update; [done..|congruence|]. intros pc [= <-]. cbn.
    apply Forall_forall. intros b Hb. by apply list_elem_of_filter in Hb as [? _].
  - destruct (pool s !! tid) as [[|[|g bins| |]]|] eqn:Ht; try done.
    injection Hstep as <-. unfold nextOffer_select.
    destruct bins as [|b rest].
    { apply wf_update; [done..|congruence|by intros pc [= <-]]. }
    destruct (chan_recv (neg s) b) as [[[sender o] n']|] eqn:Hrecv.
    + by eapply wf_recv.
    + apply wf_update; [done..|congruence|]. intros pc [= <-]. cbn.
      pose proof (wf_pollers _ _ Hwf _ _ Ht) as Hall. cbn in Hall.
      by apply Forall_cons in Hall as [_ ?].
  - destruct (pool s !! tid) as [[|[| |g bins o|]]|] eqn:Ht; try done.
    injection Hstep as <-.
    apply wf_update; [done..|congruence|]. intros pc [= <-].
    pose proof (wf_pollers _ _ Hwf _ _ Ht) as Hall. unfold nextOffer_check.
    destruct (answers (neg s) !! offer_id o) as [a|]; [|done].
    by destruct (expiry a <? now).
  - injection Hstep as <-. apply wf_neg; [done| |].
    + unfold registerAnswer. destruct (answers (neg s) !! offerID) as [a|]; [|done].
      by destruct (body a).
    + unfold registerAnswer. destruct (answers (neg s) !! offerID) as [a|]; [|done].
      by destruct (body a).
  - injection Hstep as <-. apply wf_neg; [done| |].
    + unfold lookupAnswer. destruct (answers (neg s) !! offerID) as [a|]; [|done].
      case_bool_decide; [done|]. by destruct (body a).
    + unfold lookupAnswer. destruct (answers (neg s) !! offerID) as [a|]; [|done].
      case_bool_decide; [done|]. by destruct (body a).
  - injection Hstep as <-. by apply wf_neg.
Qed.

Lemma wf_run (evs : list event) (s s' : system) :
  wf cvt s → run cvt evs s = Some s' → wf cvt s'.
Proof.
  revert s. induction evs as [|e evs IH]; intros s Hwf Hrun; cbn in Hrun.
  - by injection Hrun as <-.
  - destruct (step cvt e s) as [s1|] eqn:Hstep; [|done].
    eapply IH; [|done]. by eapply wf_step.
Qed.

Lemma NewNegotiator_bins_empty (G ttl0 : Z) (n : Negotiator) (b : Z) (q : chan) :
  NewNegotiator cvt G ttl0 = Some n → offerBins n !! b = Some q → q = [].
Proof.
  unfold NewNegotiator. case_match; [done|]. intros [= <-]. cbn. intros Hb.
  apply elem_of_list_to_map_2 in Hb.
  by apply list_elem_of_fmap in Hb as (i & [= _ ->] & _).
Qed.

Lemma wf_init (G ttl0 : Z) (n : Negotiator) :
  NewNegotiator cvt G ttl0 = Some n → wf cvt (mkSystem n ∅).
Proof.
  intros Hnew. split; cbn.
  - intros tid pc. by rewrite lookup_empty.
  - intros b q tid o Hb Hin.
    rewrite (NewNegotiator_bins_empty _ _ _ _ _ Hnew Hb) in Hin.
    by apply not_elem_of_nil in Hin.
  - intros b q Hb. rewrite (NewNegotiator_bins_empty _ _ _ _ _ Hnew Hb).
    apply NoDup_nil_2.
Qed.

Lemma reachable_wf (s : system) : reachable cvt s → wf cvt s.
Proof.
  intros (G & ttl0 & n & evs & Hnew & Hrun).
  eapply wf_run; [|done]. by eapply wf_init.
Qed.

End Preservation.

(** ** register-offer: the bin ID *)

(** C5 (the code departs from it at group 0): the guard of line 80 lets group
    ID 0 through; [groupID-1] wraps to [2^64-1], the power overflows, and the
    bin ID becomes whatever the conversion of the overflow yields.  Where
    that is not zero, [registerOffer] on the list [[0]] does not fail with
    [ErrBadGroupID], although the bin ID of the specification is zero: it
    goes on to draw an identifier and to send on the bin of that number. *)
Theorem registerOffer_group_zero (cvt : Z) (n : Negotiator) (tid : nat)
    (offerID usr : Z) (sdp : slice) :
  0 ≤ maxGroupID n → u64 cvt ≠ 0 →
  binID_spec (maxGroupID n) [0] = 0 ∧
  binID_of cvt (maxGroupID n) [0] = u64 cvt ∧
  registerOffer_enter cvt n tid (Some offerID) usr sdp [0] =
    (chan_send n (u64 cvt) tid (mkOffer offerID usr sdp),
     RO_send [0] (u64 cvt) (mkOffer offerID usr sdp)).
Proof.
  intros HG Hcvt.
  assert (binID_of cvt (maxGroupID n) [0] = u64 cvt) as Hbin.
  { unfold binID_of, binID_step. cbn [fold_left].
    rewrite (proj2 (Z.leb_le _ _) HG). by rewrite Z.lor_0_l. }
  split_and!; [done|done|].
  unfold registerOffer_enter. rewrite Hbin.
  by rewrite (proj2 (Z.eqb_neq _ _) Hcvt).
Qed.

Lemma registerOffer_group_zero_witness :
  binID_spec (maxGroupID negotiator3) [0] = 0 ∧
  binID_of amd64 (maxGroupID negotiator3) [0] = u64 amd64 ∧
  registerOffer_enter amd64 negotiator3 0 (Some 7) 42 (Some [Byte.x01]) [0] =
    (chan_send negotiator3 (u64 amd64) 0 (mkOffer 7 42 (Some [Byte.x01])),
     RO_send [0] (u64 amd64) (mkOffer 7 42 (Some [Byte.x01]))).
Proof.
  apply (registerOffer_group_zero amd64 negotiator3 0 7 42 (Some [Byte.x01]));
    [vm_compute; congruence | vm_compute; congruence].
Defined.

(** ** next-offer: the staleness check *)

Lemma stale_check (n : Negotiator) (now group : Z) (binIDs : list Z) (o : offer) :
  (stale n now o → nextOffer_check n now group binIDs o = NO_select group binIDs) ∧
  (¬ stale n now o →
     nextOffer_check n now group binIDs o = NO_ret (offer_id o) (offer_sdp o) None).
Proof.
  unfold stale, nextOffer_check.
  destruct (answers n !! offer_id o) as [a|] eqn:Ha.
  - destruct (Z.ltb_spec (expiry a) now) as [Hlt|Hge].
    + split; [done|]. intros Hns. exfalso. apply Hns. right. by exists a.
    + split; [|done]. intros [Hnone|(a' & [= <-] & Hlt)]; [done|lia].
  - split; [done|]. intros Hns. exfalso. apply Hns. by left.
Qed.

Lemma check_returns (n : Negotiator) (now group : Z) (binIDs : list Z)
    (o : offer) (offerID : Z) (sdp : slice) (err : option error) :
  nextOffer_check n now group binIDs o = NO_ret offerID sdp err →
  offerID = offer_id o ∧ sdp = offer_sdp o ∧ ¬ stale n now o.
Proof.
  unfold stale, nextOffer_check.
  destruct (answers n !! offer_id o) as [a|] eqn:Ha; [|done].
  destruct (Z.ltb_spec (expiry a) now) as [Hlt|Hge]; [done|].
  intros [= <- <- _]. split_and!; [done..|].
  intros [Hnone|(a' & [= <-] & Hlt)]; [done|lia].
Qed.

(** C7: an offer is checked against the answer table in the state at the
    moment of the check.  When its row is missing or the row's expiry lies
    before the time read there, [nextOffer] drops the offer and goes back to
    the [select] on the same bin (the head of its bin list, from which the
    offer was received); otherwise it returns that offer.  No other step
    makes [nextOffer] return an offer, so it never returns one that its
    check found stale. *)
Theorem nextOffer_discards_stale (cvt : Z) :
  (∀ s tid g b rest sender o n',
     pool s !! tid = Some (G_nextOffer (NO_select g (b :: rest))) →
     chan_recv (neg s) b = Some ((sender, o), n') →
     ∃ s1, step cvt (Ev_no_select tid) s = Some s1 ∧
           pool s1 !! tid = Some (G_nextOffer (NO_check g (b :: rest) o))) ∧
  (∀ s tid g binIDs o now,
     pool s !! tid = Some (G_nextOffer (NO_check g binIDs o)) →
     ∃ s', step cvt (Ev_no_check tid now) s = Some s' ∧ neg s' = neg s ∧
       (stale (neg s) now o →
          pool s' !! tid = Some (G_nextOffer (NO_select g binIDs))) ∧
       (¬ stale (neg s) now o →
          pool s' !! tid =
            Some (G_nextOffer (NO_ret (offer_id o) (offer_sdp o) None)))) ∧
  (∀ e s s' tid offerID sdp,
     step cvt e s = Some s' →
     pool s' !! tid = Some (G_nextOffer (NO_ret offerID sdp None)) →
     pool s !! tid ≠ Some (G_nextOffer (NO_ret offerID sdp None)) →
     ∃ now g binIDs o,
       e = Ev_no_check tid now ∧
       pool s !! tid = Some (G_nextOffer (NO_check g binIDs o)) ∧
       offerID = offer_id o ∧ sdp = offer_sdp o ∧ ¬ stale (neg s) now o).
Proof.
  split_and!.
  - intros s tid g b rest sender o n' Ht Hrecv. eexists. cbn. rewrite Ht.
    split; [done|]. unfold nextOffer_select. rewrite Hrecv. cbn.
    by rewrite lookup_insert_eq.
  - intros s tid g binIDs o now Ht. eexists. cbn. rewrite Ht.
    split; [done|]. cbn. split; [done|]. rewrite lookup_insert_eq.
    destruct (stale_check (neg s) now g binIDs o) as [H1 H2].
    split; intros H; [by rewrite H1|by rewrite H2].
  - intros e s s' tid offerID sdp Hstep Hret Hnot.
    destruct e as [t ? ? ?|t ?|t ?|t ?|t ?|t|t now| | |]; cbn in Hstep.
    + destruct (pool s !! t) eqn:Ht; [done|]. injection Hstep as <-. cbn in Hret.
      rewrite lookup_insert in Hret. by case_decide.
    + destruct (pool s !! t) eqn:Ht; [done|]. injection Hstep as <-. cbn in Hret.
      rewrite lookup_insert in Hret. by case_decide.
    + destruct (pool s !! t) as [[[usr sd groups| | |]|]|] eqn:Ht; try done.
      destruct (registerOffer_enter cvt (neg s) t rnd usr sd groups) as [n1 pc].
      injection Hstep as <-. cbn in Hret.
      rewrite lookup_insert in Hret. by case_decide.
    + destruct (pool s !! t) as [[[| |o|]|]|] eqn:Ht; try done.
      injection Hstep as <-. cbn in Hret.
      rewrite lookup_insert in Hret. by case_decide.
    + destruct (pool s !! t) as [[|[g| | |]]|] eqn:Ht; try done.
      case_bool_decide; [|done]. injection Hstep as <-. cbn in Hret.
      rewrite lookup_insert in Hret. by case_decide.
    + destruct (pool s !! t) as [[|[|g bins| |]]|] eqn:Ht; try done.
      injection Hstep as <-. unfold nextOffer_select in Hret.
      destruct bins as [|b rest].
      { cbn in Hret. rewrite lookup_insert in Hret. by case_decide. }
      destruct (chan_recv (neg s) b) as [[[sender o] n']|]; cbn in Hret.
      * rewrite !lookup_insert in Hret. by repeat case_decide.
      * rewrite lookup_insert in Hret. by case_decide.
    + destruct (pool s !! t) as [[|[| |g bins o|]]|] eqn:Ht; try done.
      injection Hstep as <-. cbn in Hret. rewrite lookup_insert in Hret.
      case_decide as Heq; [subst t|done].
      injection Hret as Hret. apply check_returns in Hret as (-> & -> & Hst).
      by exists now, g, bins, o.
    + injection Hstep as <-. done.
    + injection Hstep as <-. done.
    + injection Hstep as <-. done.
Qed.

(** ** register-offer: the handoff *)

Section Handoff.

Variable cvt : Z.




End Handoff.




(** ** next-offer: routing by group *)

Section Routing.

Variable cvt : Z.

Lemma eligible_land (g b : Z) :
  1 ≤ g ≤ 64 → eligible cvt g b ↔ Z.land b (2 ^ (g - 1)) ≠ 0.
Proof.
  intros Hg. rewrite eligible_testbit by done.
  rewrite Z.land_comm, land_pow2 by lia.
  destruct (Z.testbit b (g - 1)); [|done].
  split; [|done]. intros _. apply Z.pow_nonzero; lia.
Qed.

(** Outside 1..64 the mask of line 119 is the overflow value: which bins
    [nextOffer] then probes is up to the implementation of the conversion. *)
Lemma eligible_overflow (g b : Z) :
  g = 0 ∨ 64 < g < 2 ^ 64 → eligible cvt g b ↔ 0 < Z.land (u64 cvt) b.
Proof.
  intros Hg. unfold eligible, pow2_u64.
  assert (64 ≤ u64 (g - 1)) as Hbig.
  { unfold u64. destruct Hg as [->|Hg]; [done|]. rewrite Z.mod_small; lia. }
  rewrite (proj2 (Z.ltb_ge _ _)) by lia. by rewrite (proj2 (Z.ltb_ge _ _)) by lia.
Qed.

Lemma chan_recv_empty (n : Negotiator) (b : Z) :
  (∀ q, offerBins n !! b = Some q → q = []) → chan_recv n b = None.
Proof.
  intros Hq. unfold chan_recv.
  destruct (offerBins n !! b) as [[|x q]|] eqn:Hb; [done| |done].
  by specialize (Hq _ eq_refl).
Qed.

Lemma select_all_empty (tid : nat) (g : Z) (binIDs : list Z) (s : system) :
  pool s !! tid = Some (G_nextOffer (NO_select g binIDs)) →
  Forall (λ b, chan_recv (neg s) b = None) binIDs →
  ∃ s', run cvt (replicate (S (length binIDs)) (Ev_no_select tid)) s = Some s' ∧
        neg s' = neg s ∧
        pool s' !! tid =
          Some (G_nextOffer (NO_ret 0 None (Some ErrNoOfferAvailable))).
Proof.
  intros Ht Hall. revert s Ht Hall.
  induction binIDs as [|b rest IH]; intros s Ht Hall.
  - eexists. cbn. rewrite Ht. cbn. split; [done|]. split; [done|].
    cbn. by rewrite lookup_insert_eq.
  - apply Forall_cons in Hall as [Hb Hrest].
    set (s1 := set_goroutine s tid (G_nextOffer (NO_select g rest))).
    destruct (IH s1) as (s' & Hrun & Hneg & Hpool).
    { cbn. by rewrite lookup_insert_eq. }
    { done. }
    exists s'. split; [|done].
    cbn [replicate length run]. cbn [step]. rewrite Ht.
    unfold nextOffer_select. rewrite Hb. exact Hrun.
Qed.

End Routing.

(** Routing for the group IDs 1..64: [nextOffer(g)] collects exactly the
    bins [B] of the matrix with [B AND 2^(g-1) ≠ 0] and probes no other
    bin.  An offer it receives comes from the head of such a bin and was sent
    there by a [registerOffer] call on a group list whose bin ID is this bin,
    a list that contains [g] (group lists being lists of IDs from 1 upwards,
    and [maxGroupID] at most 64); the offer it returns is the offer it
    received.  When all those bins are empty while it probes them, it
    returns [ErrNoOfferAvailable] after one probe per bin and changes
    nothing. *)
Theorem nextOffer_routing (cvt : Z) (s : system) (tid : nat) (g : Z) :
  reachable cvt s → 1 ≤ g ≤ 64 →
  (∀ order s',
     pool s !! tid = Some (G_nextOffer (NO_call g)) →
     step cvt (Ev_no_enter tid order) s = Some s' →
     order ≡ₚ (map_to_list (offerBins (neg s))).*1 ∧
     pool s' !! tid =
       Some (G_nextOffer
               (NO_select g (filter (λ b, Z.land b (2 ^ (g - 1)) ≠ 0) order)))) ∧
  (∀ b rest,
     pool s !! tid = Some (G_nextOffer (NO_select g (b :: rest))) →
     Z.land b (2 ^ (g - 1)) ≠ 0 ∧
     ∀ sender o n',
       chan_recv (neg s) b = Some ((sender, o), n') →
       ∃ groups,
         pool s !! sender = Some (G_registerOffer (RO_send groups b o)) ∧
         b = binID_of cvt (maxGroupID (neg s)) groups ∧
         (maxGroupID (neg s) ≤ 64 → Forall (λ x, 1 ≤ x) groups →
            g ∈ groups ∧ g ≤ maxGroupID (neg s)) ∧
         pool (nextOffer_select s tid g (b :: rest)) !! tid =
           Some (G_nextOffer (NO_check g (b :: rest) o))) ∧
  (∀ binIDs o now offerID sdp,
     pool s !! tid = Some (G_nextOffer (NO_check g binIDs o)) →
     nextOffer_check (neg s) now g binIDs o = NO_ret offerID sdp None →
     offerID = offer_id o ∧ sdp = offer_sdp o) ∧
  (∀ order,
     pool s !! tid = Some (G_nextOffer (NO_call g)) →
     order ≡ₚ (map_to_list (offerBins (neg s))).*1 →
     (∀ b q, Z.land b (2 ^ (g - 1)) ≠ 0 → offerBins (neg s) !! b = Some q → q = []) →
     ∃ s',
       run cvt
         (Ev_no_enter tid order ::
          replicate (S (length (filter (eligible cvt g) order))) (Ev_no_select tid))
         s = Some s' ∧
       neg s' = neg s ∧
       pool s' !! tid =
         Some (G_nextOffer (NO_ret 0 None (Some ErrNoOfferAvailable)))).
Proof.
  intros Hreach Hg. apply reachable_wf in Hreach as Hwf.
  assert (∀ order : list Z, filter (eligible cvt g) order =
                   filter (λ b, Z.land b (2 ^ (g - 1)) ≠ 0) order) as Hfilter.
  { intros order. apply list_filter_iff. intros b. by apply eligible_land. }
  split_and!.
  - intros order s' Ht Hstep. cbn in Hstep. rewrite Ht in Hstep.
    case_bool_decide as Hperm; [|done]. injection Hstep as <-.
    split; [done|]. cbn. rewrite lookup_insert_eq.
    unfold nextOffer_enter. by rewrite Hfilter.
  - intros b rest Ht.
    pose proof (wf_pollers _ _ Hwf _ _ Ht) as Hall. cbn in Hall.
    apply Forall_cons in Hall as [Hb _].
    split; [by apply (eligible_land cvt g b Hg)|].
    intros sender o n' Hrecv.
    assert (offerBins (neg s) !! b = Some ((sender, o) :: default [] (offerBins n' !! b)))
      as Hq.
    { unfold chan_recv in Hrecv.
      destruct (offerBins (neg s) !! b) as [[|x q]|]; try done.
      injection Hrecv as -> <-. cbn. by rewrite lookup_insert_eq. }
    destruct (wf_queued _ _ Hwf b _ sender o Hq) as (groups & Hsender & Hbin);
      [by left|].
    exists groups. split_and!; [done|done| |].
    + intros HG Hpos. apply (binID_of_member cvt); [done..|].
      rewrite <- Hbin. by apply (eligible_testbit cvt).
    + unfold nextOffer_select. rewrite Hrecv. cbn. by rewrite lookup_insert_eq.
  - intros binIDs o now offerID sdp _ Hret.
    by apply check_returns in Hret as (-> & -> & _).
  - intros order Ht Hperm Hempty.
    set (s1 := set_goroutine s tid (G_nextOffer (nextOffer_enter cvt order g))).
    destruct (select_all_empty cvt tid g (filter (eligible cvt g) order) s1)
      as (s' & Hrun & Hneg & Hpool).
    { cbn. by rewrite lookup_insert_eq. }
    { apply Forall_forall. intros b Hb. apply list_elem_of_filter in Hb as [Hb _].
      apply chan_recv_empty. intros q. apply Hempty.
      by apply (eligible_land cvt g b Hg). }
    exists s'. split; [|done]. cbn [run step]. rewrite Ht.
    by rewrite bool_decide_eq_true_2.
Qed.

Lemma reachable_polled7 : reachable amd64 polled7.
Proof.
  exists 3, 10, negotiator3, to_polled7. split; vm_compute; reflexivity.
Qed.

Lemma nextOffer_routing_witness :
  (∀ order s',
     pool polled7 !! 1%nat = Some (G_nextOffer (NO_call 1)) →
     step amd64 (Ev_no_enter 1 order) polled7 = Some s' →
     order ≡ₚ (map_to_list (offerBins (neg polled7))).*1 ∧
     pool s' !! 1%nat =
       Some (G_nextOffer
               (NO_select 1 (filter (λ b, Z.land b (2 ^ (1 - 1)) ≠ 0) order)))) ∧
  (∀ b rest,
     pool polled7 !! 1%nat = Some (G_nextOffer (NO_select 1 (b :: rest))) →
     Z.land b (2 ^ (1 - 1)) ≠ 0 ∧
     ∀ sender o n',
       chan_recv (neg polled7) b = Some ((sender, o), n') →
       ∃ groups,
         pool polled7 !! sender = Some (G_registerOffer (RO_send groups b o)) ∧
         b = binID_of amd64 (maxGroupID (neg polled7)) groups ∧
         (maxGroupID (neg polled7) ≤ 64 → Forall (λ x, 1 ≤ x) groups →
            1 ∈ groups ∧ 1 ≤ maxGroupID (neg polled7)) ∧
         pool (nextOffer_select polled7 1 1 (b :: rest)) !! 1%nat =
           Some (G_nextOffer (NO_check 1 (b :: rest) o))) ∧
  (∀ binIDs o now offerID sdp,
     pool polled7 !! 1%nat = Some (G_nextOffer (NO_check 1 binIDs o)) →
     nextOffer_check (neg polled7) now 1 binIDs o = NO_ret offerID sdp None →
     offerID = offer_id o ∧ sdp = offer_sdp o) ∧
  (∀ order,
     pool polled7 !! 1%nat = Some (G_nextOffer (NO_call 1)) →
     order ≡ₚ (map_to_list (offerBins (neg polled7))).*1 →
     (∀ b q, Z.land b (2 ^ (1 - 1)) ≠ 0 →
             offerBins (neg polled7) !! b = Some q → q = []) →
     ∃ s',
       run amd64
         (Ev_no_enter 1 order ::
          replicate (S (length (filter (eligible amd64 1) order))) (Ev_no_select 1))
         polled7 = Some s' ∧
       neg s' = neg polled7 ∧
       pool s' !! 1%nat =
         Some (G_nextOffer (NO_ret 0 None (Some ErrNoOfferAvailable)))).
Proof.
  apply (nextOffer_routing amd64 polled7 1 1).
  - exact reachable_polled7.
  - lia.
Defined.

(** ** next-offer: group IDs outside 1..64 *)

Lemma land_pow2_out_of_range (g b : Z) :
  g = 0 ∨ 64 < g < 2 ^ 64 → 0 ≤ b < 2 ^ 64 → Z.land b (2 ^ (g - 1)) = 0.
Proof.
  intros [->|Hg] Hb.
  - by rewrite Z.pow_neg_r, Z.land_0_r by lia.
  - rewrite Z.land_comm, land_pow2 by lia.
    assert (Z.testbit b (g - 1) = false) as ->; [|done].
    destruct (decide (b = 0)) as [->|Hnz]; [apply Z.bits_0|].
    apply Z.bits_above_log2; [lia|].
    assert (Z.log2 b < 64) by (apply Z.log2_lt_pow2; lia). lia.
Qed.

(** C6 (the code departs from it outside 1..64): [nextOffer] makes no range
    check on its group.  For group 0, and for a group above 64, the mask of
    line 119 is the value the overflowing conversion yields; the bins
    collected are then those that share a bit with that value, whatever the
    group, while no bin at all passes the test [B AND 2^(g-1) ≠ 0] of the
    claim.  Where the conversion saturates, [nextOffer(0)] collects every bin
    and returns offers that were registered for group 1 alone. *)
Theorem nextOffer_group_out_of_range (cvt : Z) (s : system) (tid : nat) (g : Z)
    (order : list Z) :
  g = 0 ∨ 64 < g < 2 ^ 64 →
  pool s !! tid = Some (G_nextOffer (NO_call g)) →
  order ≡ₚ (map_to_list (offerBins (neg s))).*1 →
  (∀ b, 0 ≤ b < 2 ^ 64 → Z.land b (2 ^ (g - 1)) = 0) ∧
  ∃ s',
    step cvt (Ev_no_enter tid order) s = Some s' ∧ neg s' = neg s ∧
    pool s' !! tid =
      Some (G_nextOffer
              (NO_select g (filter (λ b, 0 < Z.land (u64 cvt) b) order))).
Proof.
  intros Hg Ht Hperm. split.
  - intros b Hb. by apply land_pow2_out_of_range.
  - eexists. cbn [step]. rewrite Ht. rewrite bool_decide_eq_true_2 by done.
    split; [done|]. split; [done|]. cbn. rewrite lookup_insert_eq.
    unfold nextOffer_enter. do 3 f_equal.
    apply list_filter_iff. intros b. by apply eligible_overflow.
Qed.

Lemma nextOffer_group_out_of_range_witness :
  ((∀ b, 0 ≤ b < 2 ^ 64 → Z.land b (2 ^ (0 - 1)) = 0) ∧
   ∃ s',
     step arm64 (Ev_no_enter 1 [1; 2; 3; 4; 5; 6; 7]) polled0 = Some s' ∧
     neg s' = neg polled0 ∧
     pool s' !! 1%nat =
       Some (G_nextOffer
               (NO_select 0
                  (filter (λ b, 0 < Z.land (u64 arm64) b) [1; 2; 3; 4; 5; 6; 7])))) ∧
  filter (λ b, 0 < Z.land (u64 arm64) b) [1; 2; 3; 4; 5; 6; 7] =
    [1; 2; 3; 4; 5; 6; 7] ∧
  (s ← run arm64
         [ Ev_go_registerOffer 0 42 (Some [Byte.x01]) [1];
           Ev_ro_enter 0 (Some 7);
           Ev_go_nextOffer 1 0;
           Ev_no_enter 1 [1; 2; 3; 4; 5; 6; 7];
           Ev_no_select 1;
           Ev_ro_store 0 0;
           Ev_no_check 1 0 ]
         (mkSystem negotiator3 ∅);
   Some (pool s !! 0%nat, pool s !! 1%nat)) =
  Some (Some (G_registerOffer (RO_ret 7 None)),
        Some (G_nextOffer (NO_ret 7 (Some [Byte.x01]) None))).
Proof.
  split; [|split].
  - apply (nextOffer_group_out_of_range arm64 polled0 1 0 [1; 2; 3; 4; 5; 6; 7]).
    + by left.
    + reflexivity.
    + refine (bool_decide_unpack _ _). vm_compute. exact I.
  - vm_compute. reflexivity.
  - vm_compute. reflexivity.
Defined.

(** ** register-offer: the row is created after the handoff *)

(** C1 (the code departs from it): [registerOffer] stores the answer row only
    after its send has completed (lines 103-111 follow line 97).  Whenever a
    [nextOffer] goroutine receives an offer whose identifier has no row yet,
    the sender is past the send and the row is still missing; if the receiver
    runs its check first, at whatever time, it finds no row and drops the
    offer, going back to the [select]; the sender then stores the row and
    returns the identifier with a nil error, for an offer that no server will
    ever get. *)
Theorem registerOffer_row_after_handoff (cvt : Z) (s : system) (tid : nat)
    (g b : Z) (rest : list Z) (sender : nat) (o : offer) (n' : Negotiator)
    (now now' : Z) :
  reachable cvt s →
  pool s !! tid = Some (G_nextOffer (NO_select g (b :: rest))) →
  chan_recv (neg s) b = Some ((sender, o), n') →
  answers (neg s) !! offer_id o = None →
  ∃ s1 s2 s3,
    step cvt (Ev_no_select tid) s = Some s1 ∧
    pool s1 !! sender = Some (G_registerOffer (RO_store o)) ∧
    answers (neg s1) !! offer_id o = None ∧
    step cvt (Ev_no_check tid now) s1 = Some s2 ∧
    pool s2 !! tid = Some (G_nextOffer (NO_select g (b :: rest))) ∧
    neg s2 = n' ∧
    step cvt (Ev_ro_store sender now') s2 = Some s3 ∧
    pool s3 !! sender = Some (G_registerOffer (RO_ret (offer_id o) None)) ∧
    pool s3 !! tid = Some (G_nextOffer (NO_select g (b :: rest))) ∧
    offerBins (neg s3) = offerBins n'.
Proof.
  intros Hreach Ht Hrecv Hrow. apply reachable_wf in Hreach as Hwf.
  assert (answers n' = answers (neg s) ∧ sender ≠ tid) as [Hans Hne].
  { unfold chan_recv in Hrecv.
    destruct (offerBins (neg s) !! b) as [[|x q]|] eqn:Hb; try done.
    injection Hrecv as -> <-. split; [done|].
    destruct (wf_queued _ _ Hwf b _ sender o Hb) as (gs & Hpool & _); [by left|].
    congruence. }
  set (p1 := <[tid := G_nextOffer (NO_check g (b :: rest) o)]>
               (<[sender := G_registerOffer (RO_store o)]> (pool s))).
  assert (step cvt (Ev_no_select tid) s = Some (mkSystem n' p1)) as Hs1.
  { cbn. rewrite Ht. unfold nextOffer_select. by rewrite Hrecv. }
  assert (p1 !! tid = Some (G_nextOffer (NO_check g (b :: rest) o))) as Hp1t.
  { unfold p1. by rewrite lookup_insert_eq. }
  assert (p1 !! sender = Some (G_registerOffer (RO_store o))) as Hp1s.
  { unfold p1. rewrite lookup_insert_ne by done. by rewrite lookup_insert_eq. }
  set (p2 := <[tid := G_nextOffer (NO_select g (b :: rest))]> p1).
  assert (step cvt (Ev_no_check tid now) (mkSystem n' p1) = Some (mkSystem n' p2))
    as Hs2.
  { cbn. rewrite Hp1t. unfold nextOffer_check, set_goroutine. cbn.
    by rewrite Hans, Hrow. }
  assert (p2 !! sender = Some (G_registerOffer (RO_store o))) as Hp2s.
  { unfold p2. by rewrite lookup_insert_ne. }
  eexists _, _, _. split_and!; [exact Hs1|exact Hp1s|by cbn; rewrite Hans|
                                exact Hs2| | | | | |].
  - unfold p2. cbn. by rewrite lookup_insert_eq.
  - done.
  - cbn. rewrite Hp2s. reflexivity.
  - cbn. by rewrite lookup_insert_eq.
  - cbn. rewrite lookup_insert_ne by done. unfold p2. by rewrite lookup_insert_eq.
  - done.
Qed.

Lemma registerOffer_row_after_handoff_witness :
  ∃ s1 s2 s3,
    step amd64 (Ev_no_select 1) polled7 = Some s1 ∧
    pool s1 !! 0%nat = Some (G_registerOffer (RO_store offer7)) ∧
    answers (neg s1) !! offer_id offer7 = None ∧
    step amd64 (Ev_no_check 1 0) s1 = Some s2 ∧
    pool s2 !! 1%nat = Some (G_nextOffer (NO_select 1 (1 :: [3; 5; 7]))) ∧
    neg s2 = negotiator3 ∧
    step amd64 (Ev_ro_store 0 0) s2 = Some s3 ∧
    pool s3 !! 0%nat = Some (G_registerOffer (RO_ret (offer_id offer7) None)) ∧
    pool s3 !! 1%nat = Some (G_nextOffer (NO_select 1 (1 :: [3; 5; 7]))) ∧
    offerBins (neg s3) = offerBins negotiator3.
Proof.
  apply (registerOffer_row_after_handoff amd64 polled7 1 1 1 [3; 5; 7] 0 offer7
           negotiator3 0 0).
  - exact reachable_polled7.
  - reflexivity.
  - vm_compute. reflexivity.
  - reflexivity.
Defined.

(** ** Scenarios *)

(** The happy path, under a schedule where the sender stores its row before
    the receiver checks it: [nextOffer(2)] returns offer 7, the answer is
    registered once and the owner reads it twice. *)
Example happy_path :
  (s ← run amd64
         [ Ev_go_registerOffer 0 42 (Some [Byte.x01]) [1; 2];
           Ev_ro_enter 0 (Some 7);
           Ev_go_nextOffer 1 2;
           Ev_no_enter 1 [7; 6; 5; 4; 3; 2; 1];
           Ev_no_select 1; Ev_no_select 1; Ev_no_select 1;
           Ev_ro_store 0 0;
           Ev_no_check 1 1;
           Ev_registerAnswer 7 (Some [Byte.xaa]);
           Ev_registerAnswer 7 (Some [Byte.xbb]) ]
         (mkSystem negotiator3 ∅);
   Some (pool s !! 0%nat, pool s !! 1%nat,
         (registerAnswer (neg s) 7 (Some [Byte.xbb])).2,
         (lookupAnswer (neg s) 42 7).2,
         (lookupAnswer (lookupAnswer (neg s) 42 7).1 42 7).2,
         (lookupAnswer (neg s) 43 7).2)) =
  Some (Some (G_registerOffer (RO_ret 7 None)),
        Some (G_nextOffer (NO_ret 7 (Some [Byte.x01]) None)),
        Some ErrAnswerRepeated,
        (Some [Byte.xaa], None),
        (Some [Byte.xaa], None),
        (None, Some ErrNoAccess)).
Proof. vm_compute. reflexivity. Qed.

(** Routing miss: an offer for group 1 is invisible to [nextOffer(2)]. *)
Example routing_miss :
  (s ← run amd64
         [ Ev_go_nextOffer 1 2;
           Ev_no_enter 1 [1; 2; 3; 4; 5; 6; 7];
           Ev_no_select 1; Ev_no_select 1; Ev_no_select 1; Ev_no_select 1;
           Ev_no_select 1 ]
         blocked7;
   Some (pool s !! 0%nat, pool s !! 1%nat)) =
  Some (Some (G_registerOffer (RO_send [1] 1 offer7)),
        Some (G_nextOffer (NO_ret 0 None (Some ErrNoOfferAvailable)))).
Proof. vm_compute. reflexivity. Qed.

(** Bad groups: the empty list and the list [[99]] with [G = 3]. *)
Example bad_groups :
  registerOffer_enter amd64 negotiator3 0 (Some 7) 42 (Some [Byte.x01]) [] =
    (negotiator3, RO_ret 0 (Some ErrBadGroupID)) ∧
  registerOffer_enter amd64 negotiator3 0 (Some 7) 42 (Some [Byte.x01]) [99] =
    (negotiator3, RO_ret 0 (Some ErrBadGroupID)).
Proof. split; reflexivity. Qed.

(** Expiry: a row with expiry 10 is swept at time 11, after which both
    [lookupAnswer] and [registerAnswer] fail with [ErrInvalidOfferID]. *)
Example expiry_sweep :
  (lookupAnswer (autoPurge_cycle pending7 (λ _, 11)) 42 7).2 =
    (None, Some ErrInvalidOfferID) ∧
  (registerAnswer (autoPurge_cycle pending7 (λ _, 11)) 7 (Some [Byte.xaa])).2 =
    Some ErrInvalidOfferID ∧
  (lookupAnswer (autoPurge_cycle pending7 (λ _, 10)) 42 7).2 =
    (None, Some ErrAnswerPending).
Proof. split_and!; vm_compute; reflexivity. Qed.

(** * Further properties of the Negotiator *)

(** ** NewNegotiator *)

Lemma bins_lookup (m b : Z) :
  (list_to_map ((λ i, (i, [] : chan)) <$> seqZ 1 m) : gmap Z chan) !! b =
    if decide (1 ≤ b ≤ m) then Some [] else None.
Proof.
  assert (((λ i, (i, [] : chan)) <$> seqZ 1 m).*1 = seqZ 1 m) as Hfst.
  { rewrite <- list_fmap_compose. apply list_fmap_id. }
  assert (NoDup ((λ i, (i, [] : chan)) <$> seqZ 1 m).*1) as Hnd.
  { rewrite Hfst. apply NoDup_seqZ. }
  case_decide as Hb.
  - apply elem_of_list_to_map_1; [exact Hnd|].
    apply list_elem_of_fmap. exists b. split; [done|]. apply elem_of_seqZ. lia.
  - apply not_elem_of_list_to_map_1. intros Hin. apply Hb.
    change (b ∈ ((λ i, (i, [] : chan)) <$> seqZ 1 m).*1) in Hin.
    rewrite Hfst in Hin. apply elem_of_seqZ in Hin. lia.
Qed.

(** X1: for [0 <= maxGroupID <= 63] NewNegotiator returns a Negotiator whose
    bin matrix has exactly the keys [1 .. 2^maxGroupID - 1], each with an
    empty channel, and whose answer table is empty; a negative [maxGroupID]
    makes the construction loop run for ever. *)
Theorem NewNegotiator_matrix (cvt G ttl0 : Z) :
  (0 ≤ G ≤ 63 →
     ∃ n, NewNegotiator cvt G ttl0 = Some n ∧
          maxGroupID n = G ∧ ttl n = ttl0 ∧ answers n = ∅ ∧
          ∀ b, offerBins n !! b =
                 if decide (1 ≤ b ≤ 2 ^ G - 1) then Some [] else None) ∧
  (G < 0 → NewNegotiator cvt G ttl0 = None).
Proof.
  split.
  - intros HG. unfold NewNegotiator, pow2_u64.
    rewrite (proj2 (Z.ltb_ge _ _)) by lia. rewrite (proj2 (Z.ltb_lt _ _)) by lia.
    assert (0 < 2 ^ G) by (apply Z.pow_pos_nonneg; lia).
    assert (2 ^ G ≤ 2 ^ 63) by (apply Z.pow_le_mono_r; lia).
    assert (u64 (2 ^ G - 1) = 2 ^ G - 1) as -> by (unfold u64; rewrite Z.mod_small; lia).
    rewrite (proj2 (Z.eqb_neq _ _)) by lia.
    eexists. split; [done|]. cbn. split_and!; [|done|done|apply bins_lookup].
    unfold u64. rewrite Z.mod_small; lia.
  - intros HG. unfold NewNegotiator, pow2_u64.
    rewrite (proj2 (Z.ltb_lt _ _)) by lia. by cbn.
Qed.

(** ** The configuration and the bin matrix never change *)

Section Config.

Variable cvt : Z.

Lemma chan_send_config (n : Negotiator) (b : Z) (tid : nat) (o : offer) :
  maxGroupID (chan_send n b tid o) = maxGroupID n ∧
  ttl (chan_send n b tid o) = ttl n ∧
  answers (chan_send n b tid o) = answers n ∧
  dom (offerBins (chan_send n b tid o)) = dom (offerBins n).
Proof.
  unfold chan_send. destruct (offerBins n !! b) as [q|] eqn:Hb; [|done].
  cbn. split_and!; [done..|]. by apply dom_insert_lookup_L.
Qed.

Lemma chan_recv_config (n n' : Negotiator) (b : Z) (x : nat * offer) :
  chan_recv n b = Some (x, n') →
  maxGroupID n' = maxGroupID n ∧ ttl n' = ttl n ∧ answers n' = answers n ∧
  dom (offerBins n') = dom (offerBins n).
Proof.
  unfold chan_recv. destruct (offerBins n !! b) as [[|y q]|] eqn:Hb; try done.
  intros [= _ <-]. cbn. split_and!; [done..|]. by apply dom_insert_lookup_L.
Qed.

Lemma step_config (e : event) (s s' : system) :
  step cvt e s = Some s' →
  maxGroupID (neg s') = maxGroupID (neg s) ∧ ttl (neg s') = ttl (neg s) ∧
  dom (offerBins (neg s')) = dom (offerBins (neg s)).
Proof.
  intros Hstep. destruct e; cbn in Hstep.
  - destruct (pool s !! tid); [done|]. by injection Hstep as <-.
  - destruct (pool s !! tid); [done|]. by injection Hstep as <-.
  - destruct (pool s !! tid) as [[[usr sdp groups| | |]|]|]; try done.
    unfold registerOffer_enter in Hstep.
    destruct (binID_of cvt (maxGroupID (neg s)) groups =? 0);
      [by injection Hstep as <-|].
    destruct rnd as [offerID|]; [|by injection Hstep as <-].
    injection Hstep as <-. cbn.
    by destruct (chan_send_config (neg s) (binID_of cvt (maxGroupID (neg s)) groups)
                   tid (mkOffer offerID usr sdp)) as (? & ? & _ & ?).
  - destruct (pool s !! tid) as [[[| |o|]|]|]; try done. by injection Hstep as <-.
  - destruct (pool s !! tid) as [[|[g| | |]]|]; try done.
    case_bool_decide; [|done]. by injection Hstep as <-.
  - destruct (pool s !! tid) as [[|[|g bins| |]]|]; try done.
    injection Hstep as <-. unfold nextOffer_select.
    destruct bins as [|b rest]; [done|].
    destruct (chan_recv (neg s) b) as [[[sender o] n']|] eqn:Hrecv; [|done].
    cbn. by destruct (chan_recv_config _ _ _ _ Hrecv) as (? & ? & _ & ?).
  - destruct (pool s !! tid) as [[|[| |g bins o|]]|]; try done.
    by injection Hstep as <-.
  - injection Hstep as <-. cbn. unfold registerAnswer.
    destruct (answers (neg s) !! offerID) as [a|]; [|done]. by destruct (body a).
  - injection Hstep as <-. cbn. unfold lookupAnswer.
    destruct (answers (neg s) !! offerID) as [a|]; [|done].
    case_bool_decide; [done|]. by destruct (body a).
  - by injection Hstep as <-.
Qed.

Lemma run_config (evs : list event) (s s' : system) :
  run cvt evs s = Some s' →
  maxGroupID (neg s') = maxGroupID (neg s) ∧ ttl (neg s') = ttl (neg s) ∧
  dom (offerBins (neg s')) = dom (offerBins (neg s)).
Proof.
  revert s. induction evs as [|e evs IH]; intros s Hrun; cbn in Hrun.
  - by injection Hrun as <-.
  - destruct (step cvt e s) as [s1|] eqn:Hstep; [|done].
    destruct (step_config _ _ _ Hstep) as (HG & Httl & Hdom).
    destruct (IH _ Hrun) as (HG' & Httl' & Hdom'). split_and!; congruence.
Qed.

Lemma pow2_u64_nonneg (e : Z) : 0 ≤ pow2_u64 cvt e.
Proof.
  unfold pow2_u64, u64. destruct (e <? 0); [done|].
  destruct (e <? 64); [apply Z.pow_nonneg; lia|].
  apply Z.mod_pos_bound. done.
Qed.

Lemma binID_fold_nonneg (G : Z) (groups : list Z) (acc : Z) :
  0 ≤ acc → 0 ≤ fold_left (binID_step cvt G) groups acc.
Proof.
  revert acc. induction groups as [|g rest IH]; intros acc Hacc; [done|].
  cbn [fold_left]. apply IH. unfold binID_step. destruct (g <=? G); [|done].
  apply Z.lor_nonneg. split; [done|apply pow2_u64_nonneg].
Qed.

Lemma below_pow2 (b G : Z) :
  0 ≤ G → 0 ≤ b → (∀ k, G ≤ k → Z.testbit b k = false) → b < 2 ^ G.
Proof.
  intros HG Hb Hbits.
  assert (b mod 2 ^ G = b) as <-.
  { apply Z.bits_inj'. intros k Hk. destruct (Z.lt_ge_cases k G) as [Hlt|Hge].
    - by rewrite Z.mod_pow2_bits_low.
    - rewrite Z.mod_pow2_bits_high by lia. symmetry. by apply Hbits. }
  apply Z.mod_pos_bound. apply Z.pow_pos_nonneg; lia.
Qed.

Lemma binID_of_range (G : Z) (groups : list Z) :
  0 ≤ G ≤ 64 → Forall (λ x, 1 ≤ x) groups → Exists (λ x, x ≤ G) groups →
  1 ≤ binID_of cvt G groups ≤ 2 ^ G - 1.
Proof.
  intros HG Hpos Hex.
  assert (0 ≤ binID_of cvt G groups) as Hnn by by apply binID_fold_nonneg.
  assert (binID_of cvt G groups < 2 ^ G) as Hlt.
  { apply below_pow2; [lia|done|]. intros k Hk.
    destruct (Z.testbit (binID_of cvt G groups) k) eqn:Hbit; [|done].
    unfold binID_of in Hbit. rewrite binID_fold_testbit, Z.bits_0 in Hbit.
    cbn [orb] in Hbit. apply existsb_exists in Hbit as (x & Hin & Hx).
    apply andb_true_iff in Hx as [HxG Hxbit]. apply Z.leb_le in HxG.
    assert (1 ≤ x) as Hx1.
    { rewrite Forall_forall in Hpos. apply Hpos. by apply list_elem_of_In. }
    rewrite pow2_u64_valid, Z.pow2_bits_eqb in Hxbit by lia.
    apply Z.eqb_eq in Hxbit. lia. }
  assert (binID_of cvt G groups ≠ 0) as Hnz.
  { apply Exists_exists in Hex as (x & Hin & HxG).
    assert (1 ≤ x) as Hx1 by (rewrite Forall_forall in Hpos; by apply Hpos).
    intros Hz.
    assert (Z.testbit (binID_of cvt G groups) (x - 1) = true) as Hbit.
    { apply binID_of_member; [lia|done|lia|done]. }
    by rewrite Hz, Z.bits_0 in Hbit. }
  lia.
Qed.

End Config.

(** X2: along every run the configuration of the Negotiator ([maxGroupID],
    [ttl]) and the set of bins of the matrix stay as they were: no operation
    adds or removes a channel. *)
Theorem config_fixed (cvt : Z) (evs : list event) (s s' : system) :
  run cvt evs s = Some s' →
  maxGroupID (neg s') = maxGroupID (neg s) ∧ ttl (neg s') = ttl (neg s) ∧
  dom (offerBins (neg s')) = dom (offerBins (neg s)).
Proof. intros Hrun. by eapply run_config. Qed.

Lemma config_fixed_witness :
  maxGroupID (neg polled7) = maxGroupID (neg (mkSystem negotiator3 ∅)) ∧
  ttl (neg polled7) = ttl (neg (mkSystem negotiator3 ∅)) ∧
  dom (offerBins (neg polled7)) = dom (offerBins (neg (mkSystem negotiator3 ∅))).
Proof.
  apply (config_fixed amd64 to_polled7 (mkSystem negotiator3 ∅) polled7).
  vm_compute. reflexivity.
Defined.

(** X3: on a Negotiator made by NewNegotiator with [0 <= maxGroupID <= 63],
    whatever has run since, a group list of IDs from 1 upwards with at least
    one ID within [maxGroupID] yields a bin ID in [1 .. 2^maxGroupID - 1],
    the channel of that bin exists, and [registerOffer] (its identifier
    drawn) queues its offer at the back of that channel: for such lists the
    send never hits a nil channel. *)
Theorem valid_groups_are_queued (cvt G ttl0 : Z) (n : Negotiator)
    (evs : list event) (s : system) (groups : list Z) (tid : nat)
    (offerID usr : Z) (sdp : slice) :
  0 ≤ G ≤ 63 →
  NewNegotiator cvt G ttl0 = Some n →
  run cvt evs (mkSystem n ∅) = Some s →
  Forall (λ x, 1 ≤ x) groups → Exists (λ x, x ≤ G) groups →
  1 ≤ binID_of cvt G groups ≤ 2 ^ G - 1 ∧
  ∃ q, offerBins (neg s) !! binID_of cvt G groups = Some q ∧
       registerOffer_enter cvt (neg s) tid (Some offerID) usr sdp groups =
         (set_offerBins (neg s)
            (<[binID_of cvt G groups := q ++ [(tid, mkOffer offerID usr sdp)]]>
               (offerBins (neg s))),
          RO_send groups (binID_of cvt G groups) (mkOffer offerID usr sdp)).
Proof.
  intros HG Hnew Hrun Hpos Hex.
  destruct (proj1 (NewNegotiator_matrix cvt G ttl0) HG)
    as (n0 & Hn0 & HmG & _ & _ & Hbins).
  rewrite Hnew in Hn0. injection Hn0 as <-.
  destruct (run_config cvt _ _ _ Hrun) as (HG' & _ & Hdom). cbn in HG', Hdom.
  pose proof (binID_of_range cvt G groups ltac:(lia) Hpos Hex) as Hrange.
  split; [done|].
  unfold registerOffer_enter, chan_send. cbv zeta. rewrite HG', HmG.
  rewrite (proj2 (Z.eqb_neq _ _)) by lia.
  destruct (offerBins (neg s) !! binID_of cvt G groups) as [q|] eqn:Hq.
  - by exists q.
  - exfalso.
    assert (binID_of cvt G groups ∈ dom (offerBins (neg s))) as Hin.
    { rewrite Hdom. apply elem_of_dom. rewrite Hbins.
      rewrite decide_True by done. by eexists. }
    apply elem_of_dom in Hin as [q' Hq']. unfold chan in *. congruence.
Qed.

Lemma valid_groups_are_queued_witness :
  1 ≤ binID_of amd64 3 [1; 2] ≤ 2 ^ 3 - 1 ∧
  ∃ q, offerBins (neg blocked7) !! binID_of amd64 3 [1; 2] = Some q ∧
       registerOffer_enter amd64 (neg blocked7) 5 (Some 9) 42 None [1; 2] =
         (set_offerBins (neg blocked7)
            (<[binID_of amd64 3 [1; 2] := q ++ [(5%nat, mkOffer 9 42 None)]]>
               (offerBins (neg blocked7))),
          RO_send [1; 2] (binID_of amd64 3 [1; 2]) (mkOffer 9 42 None)).
Proof.
  apply (valid_groups_are_queued amd64 3 10 negotiator3 to_blocked7 blocked7
           [1; 2] 5 9 42 None).
  - lia.
  - vm_compute. reflexivity.
  - vm_compute. reflexivity.
  - repeat constructor; lia.
  - constructor. lia.
Defined.

(** ** The life of an answer row *)

(** X4: a row goes through create, answer and read as follows, from any
    state and at any time: after the create step of [registerOffer] the
    owner's lookup gives [ErrAnswerPending]; a [registerAnswer] with a
    non-nil SDP then succeeds and keeps the expiry [now + ttl]; afterwards
    the owner reads exactly that SDP, any other user gets [ErrNoAccess], and
    a further [registerAnswer] gets [ErrAnswerRepeated]. *)
Theorem answer_lifecycle (n : Negotiator) (now : Z) (o : offer)
    (b : list Byte.byte) (other : Z) (sdp' : slice) :
  let n1 := (registerOffer_store n now o).1 in
  lookupAnswer n1 (offer_user o) (offer_id o) = (n1, (None, Some ErrAnswerPending)) ∧
  ∃ n2,
    registerAnswer n1 (offer_id o) (Some b) = (n2, None) ∧
    answers n2 !! offer_id o = Some (mkAnswer (Some b) (now + ttl n) (offer_user o)) ∧
    lookupAnswer n2 (offer_user o) (offer_id o) = (n2, (Some b, None)) ∧
    (other ≠ offer_user o →
       lookupAnswer n2 other (offer_id o) = (n2, (None, Some ErrNoAccess))) ∧
    registerAnswer n2 (offer_id o) sdp' = (n2, Some ErrAnswerRepeated).
Proof.
  intros n1.
  assert (answers n1 !! offer_id o = Some (mkAnswer None (now + ttl n) (offer_user o)))
    as Hrow by (cbn; by rewrite lookup_insert_eq).
  split.
  { unfold lookupAnswer. rewrite Hrow. cbn.
    by rewrite bool_decide_eq_false_2 by (intros H; by apply H). }
  eexists. split; [by apply (registerAnswer_fresh _ _ _ _ Hrow)|].
  set (n2 := set_answers n1 _).
  assert (answers n2 !! offer_id o =
            Some (mkAnswer (Some b) (now + ttl n) (offer_user o))) as Hrow2.
  { unfold n2. cbn. by rewrite lookup_insert_eq. }
  split_and!; [done| | |].
  - unfold lookupAnswer. rewrite Hrow2. cbn.
    by rewrite bool_decide_eq_false_2 by (intros H; by apply H).
  - intros Hne. unfold lookupAnswer. rewrite Hrow2. cbn.
    by rewrite bool_decide_eq_true_2 by done.
  - by apply (registerAnswer_present _ _ _ _ b Hrow2).
Qed.

(** X5: neither [registerAnswer] nor [lookupAnswer] looks at the expiry of a
    row: with the expiry of a row changed to any other value both return the
    same error and the same body.  A row that is past its expiry but not yet
    swept is answered and read like a live one. *)
Theorem expiry_not_consulted (n : Negotiator) (offerID : Z) (a : answer)
    (expiry' usr : Z) (sdp : slice) :
  answers n !! offerID = Some a →
  (lookupAnswer (with_row n offerID (mkAnswer (body a) expiry' (user a))) usr offerID).2 =
    (lookupAnswer n usr offerID).2 ∧
  (registerAnswer (with_row n offerID (mkAnswer (body a) expiry' (user a))) offerID sdp).2 =
    (registerAnswer n offerID sdp).2.
Proof.
  intros Ha. unfold lookupAnswer, registerAnswer, with_row. cbn.
  rewrite lookup_insert_eq, Ha. cbn. split.
  - case_bool_decide; [done|]. by destruct (body a).
  - by destruct (body a).
Qed.

Lemma expiry_not_consulted_witness :
  (lookupAnswer (with_row answered7 7 (mkAnswer (Some [Byte.xaa]) 0 1)) 1 7).2 =
    (lookupAnswer answered7 1 7).2 ∧
  (registerAnswer (with_row answered7 7 (mkAnswer (Some [Byte.xaa]) 0 1)) 7 None).2 =
    (registerAnswer answered7 7 None).2.
Proof.
  apply (expiry_not_consulted answered7 7 (mkAnswer (Some [Byte.xaa]) 100 1) 0 1 None).
  reflexivity.
Defined.

(** ** The sweeper and the table operations *)

Lemma autoPurge_lookup (n : Negotiator) (now : Z → Z) (k : Z) :
  answers (autoPurge_cycle n now) !! k =
    match answers n !! k with
    | Some a => if expiry a <? now k then None else Some a
    | None => None
    end.
Proof.
  cbn. rewrite purge_fold_lookup. destruct (answers n !! k) as [a|] eqn:Ha; [|done].
  by destruct (expiry a <? now k).
Qed.

(** X6: after a sweeper cycle, [lookupAnswer] and [registerAnswer] on a row
    that was past its expiry when inspected fail with [ErrInvalidOfferID],
    whoever asks; on every other offer ID they return what they would have
    returned before the cycle. *)
Theorem sweep_then_table_ops (n : Negotiator) (now : Z → Z) (usr offerID : Z)
    (sdp : slice) :
  (∀ a, answers n !! offerID = Some a → expiry a < now offerID →
     (lookupAnswer (autoPurge_cycle n now) usr offerID).2 =
       (None, Some ErrInvalidOfferID) ∧
     (registerAnswer (autoPurge_cycle n now) offerID sdp).2 =
       Some ErrInvalidOfferID) ∧
  ((∀ a, answers n !! offerID = Some a → ¬ expiry a < now offerID) →
     (lookupAnswer (autoPurge_cycle n now) usr offerID).2 =
       (lookupAnswer n usr offerID).2 ∧
     (registerAnswer (autoPurge_cycle n now) offerID sdp).2 =
       (registerAnswer n offerID sdp).2).
Proof.
  split.
  - intros a Ha Hexp. unfold lookupAnswer, registerAnswer.
    rewrite autoPurge_lookup, Ha. by rewrite (proj2 (Z.ltb_lt _ _) Hexp).
  - intros Hlive. unfold lookupAnswer, registerAnswer.
    rewrite autoPurge_lookup. destruct (answers n !! offerID) as [a|] eqn:Ha; [|done].
    specialize (Hlive a eq_refl). rewrite (proj2 (Z.ltb_ge _ _)) by lia.
    split.
    + case_bool_decide; [done|]. by destruct (body a).
    + by destruct (body a).
Qed.

Lemma Negotiator_eq (n1 n2 : Negotiator) :
  maxGroupID n1 = maxGroupID n2 → offerBins n1 = offerBins n2 →
  answers n1 = answers n2 → ttl n1 = ttl n2 → n1 = n2.
Proof. destruct n1, n2. cbn. by intros -> -> -> ->. Qed.

(** X7: sweeping again with clock readings that are not earlier adds nothing
    that the later sweep alone would not do: a cycle at readings [now]
    followed by a cycle at readings [now'] with [now k <= now' k] for every
    row leaves the Negotiator that the cycle at [now'] alone leaves.  In
    particular a cycle repeated at the same readings changes nothing. *)
Theorem autoPurge_cycle_absorbs (n : Negotiator) (now now' : Z → Z) :
  (∀ k, now k ≤ now' k) →
  autoPurge_cycle (autoPurge_cycle n now) now' = autoPurge_cycle n now'.
Proof.
  intros Hle. apply Negotiator_eq; [done|done| |done].
  apply map_eq. intros k. rewrite !autoPurge_lookup.
  destruct (answers n !! k) as [a|]; [|done].
  destruct (Z.ltb_spec (expiry a) (now k)) as [H1|H1].
  - by rewrite (proj2 (Z.ltb_lt _ _)) by (specialize (Hle k); lia).
  - done.
Qed.

Lemma autoPurge_cycle_absorbs_witness :
  autoPurge_cycle (autoPurge_cycle pending7 (λ _, 11)) (λ _, 11) =
    autoPurge_cycle pending7 (λ _, 11).
Proof.
  apply (autoPurge_cycle_absorbs pending7 (λ _, 11) (λ _, 11)). intros k. lia.
Defined.

(** ** The handoff when the sender's store comes first *)

(** X8: when a [nextOffer] goroutine receives an offer and the sender stores
    its row (at time [now1]) before the receiver checks it (at time [now2]),
    the sender returns the identifier and the receiver returns the offer if
    [now2 <= now1 + ttl], the comparison of line 141 being strict; past that
    time it drops the offer and goes on with the same bin. *)
Theorem handoff_store_first (cvt : Z) (s : system) (tid : nat) (g b : Z)
    (rest : list Z) (sender : nat) (o : offer) (n' : Negotiator) (now1 now2 : Z) :
  reachable cvt s →
  pool s !! tid = Some (G_nextOffer (NO_select g (b :: rest))) →
  chan_recv (neg s) b = Some ((sender, o), n') →
  ∃ s3,
    run cvt [Ev_no_select tid; Ev_ro_store sender now1; Ev_no_check tid now2] s
      = Some s3 ∧
    pool s3 !! sender = Some (G_registerOffer (RO_ret (offer_id o) None)) ∧
    pool s3 !! tid =
      Some (G_nextOffer
              (if now1 + ttl (neg s) <? now2 then NO_select g (b :: rest)
               else NO_ret (offer_id o) (offer_sdp o) None)).
Proof.
  intros Hreach Ht Hrecv. apply reachable_wf in Hreach as Hwf.
  assert (ttl n' = ttl (neg s) ∧ sender ≠ tid) as [Httl Hne].
  { unfold chan_recv in Hrecv.
    destruct (offerBins (neg s) !! b) as [[|x q]|] eqn:Hb; try done.
    injection Hrecv as -> <-. split; [done|].
    destruct (wf_queued _ _ Hwf b _ sender o Hb) as (gs & Hpool & _); [by left|].
    congruence. }
  set (p1 := <[tid := G_nextOffer (NO_check g (b :: rest) o)]>
               (<[sender := G_registerOffer (RO_store o)]> (pool s))).
  assert (step cvt (Ev_no_select tid) s = Some (mkSystem n' p1)) as Hs1.
  { cbn. rewrite Ht. unfold nextOffer_select. by rewrite Hrecv. }
  set (n2 := (registerOffer_store n' now1 o).1).
  set (p2 := <[sender := G_registerOffer (RO_ret (offer_id o) None)]> p1).
  assert (step cvt (Ev_ro_store sender now1) (mkSystem n' p1) = Some (mkSystem n2 p2))
    as Hs2.
  { cbn. unfold p1 at 1. rewrite lookup_insert_ne by done.
    by rewrite lookup_insert_eq. }
  assert (p2 !! tid = Some (G_nextOffer (NO_check g (b :: rest) o))) as Hp2.
  { unfold p2, p1. rewrite lookup_insert_ne by done. by rewrite lookup_insert_eq. }
  assert (nextOffer_check n2 now2 g (b :: rest) o =
            if now1 + ttl (neg s) <? now2 then NO_select g (b :: rest)
            else NO_ret (offer_id o) (offer_sdp o) None) as Hcheck.
  { unfold nextOffer_check, n2. cbn. rewrite lookup_insert_eq. cbn.
    by rewrite Httl. }
  eexists. cbn [run]. rewrite Hs1, Hs2. cbn [step pool neg]. rewrite Hp2.
  split; [done|]. cbn [set_goroutine pool neg]. rewrite Hcheck. split.
  - rewrite lookup_insert_ne by done. unfold p2. by rewrite lookup_insert_eq.
  - by rewrite lookup_insert_eq.
Qed.

Lemma handoff_store_first_witness :
  ∃ s3,
    run amd64 [Ev_no_select 1; Ev_ro_store 0 0; Ev_no_check 1 10] polled7 = Some s3 ∧
    pool s3 !! 0%nat = Some (G_registerOffer (RO_ret (offer_id offer7) None)) ∧
    pool s3 !! 1%nat =
      Some (G_nextOffer
              (if 0 + ttl (neg polled7) <? 10 then NO_select 1 (1 :: [3; 5; 7])
               else NO_ret (offer_id offer7) (offer_sdp offer7) None)).
Proof.
  apply (handoff_store_first amd64 polled7 1 1 1 [3; 5; 7] 0 offer7 negotiator3 0 10).
  - exact reachable_polled7.
  - reflexivity.
  - vm_compute. reflexivity.
Defined.

(** ** The group list is read as a set *)

(** X9: the bin ID depends only on which group IDs occur in the list, not on
    their order or on how often they occur. *)
Theorem binID_of_same_groups (cvt G : Z) (l1 l2 : list Z) :
  (∀ x, x ∈ l1 ↔ x ∈ l2) → binID_of cvt G l1 = binID_of cvt G l2.
Proof.
  intros Hsame. apply Z.bits_inj'. intros k _. unfold binID_of.
  rewrite !binID_fold_testbit. f_equal.
  apply eq_true_iff_eq. rewrite !existsb_exists.
  split; intros (x & Hin & Hx); exists x; (split; [|done]);
    apply list_elem_of_In; apply Hsame; by apply list_elem_of_In.
Qed.

Lemma binID_of_same_groups_witness :
  binID_of amd64 3 [1; 2; 1] = binID_of amd64 3 [2; 1].
Proof.
  apply (binID_of_same_groups amd64 3 [1; 2; 1] [2; 1]).
  intros x. rewrite !elem_of_cons, !elem_of_nil. tauto.
Defined.

(** X10: a group list in which every ID is above [maxGroupID] (the empty
    list among them) makes [registerOffer] fail with [ErrBadGroupID]; the
    random source is not consulted, nothing is queued and the Negotiator is
    left as it was. *)
Theorem registerOffer_no_valid_group (cvt : Z) (n : Negotiator) (tid : nat)
    (rnd : option Z) (usr : Z) (sdp : slice) (groups : list Z) :
  Forall (λ g, maxGroupID n < g) groups →
  registerOffer_enter cvt n tid rnd usr sdp groups =
    (n, RO_ret 0 (Some ErrBadGroupID)).
Proof.
  intros Hall. apply registerOffer_bad_group. by apply binID_of_out_of_range.
Qed.

Lemma registerOffer_no_valid_group_witness :
  registerOffer_enter amd64 negotiator3 0 None 42 None [99; 4] =
    (negotiator3, RO_ret 0 (Some ErrBadGroupID)).
Proof.
  apply (registerOffer_no_valid_group amd64 negotiator3 0 None 42 None [99; 4]).
  repeat constructor.
Defined.

(** ** What the operations can return *)

Section Returns.

Variable cvt : Z.

Lemma ret_wf_insert (p : gmap nat goroutine) (t0 : nat) (g0 : goroutine) :
  (∀ t g, p !! t = Some g → ret_wf g) → ret_wf g0 →
  ∀ t g, <[t0 := g0]> p !! t = Some g → ret_wf g.
Proof.
  intros Hp Hg0 t g. rewrite lookup_insert. case_decide; [by intros [= <-]|apply Hp].
Qed.

Lemma ret_wf_step (e : event) (s s' : system) :
  (∀ t g, pool s !! t = Some g → ret_wf g) →
  step cvt e s = Some s' →
  ∀ t g, pool s' !! t = Some g → ret_wf g.
Proof.
  intros Hp Hstep. destruct e; cbn in Hstep.
  - destruct (pool s !! tid); [done|]. injection Hstep as <-.
    by apply ret_wf_insert.
  - destruct (pool s !! tid); [done|]. injection Hstep as <-.
    by apply ret_wf_insert.
  - destruct (pool s !! tid) as [[[usr sdp groups| | |]|]|]; try done.
    unfold registerOffer_enter in Hstep.
    destruct (binID_of cvt (maxGroupID (neg s)) groups =? 0).
    { injection Hstep as <-. apply ret_wf_insert; [done|]. cbn. right. auto. }
    destruct rnd as [offerID|]; injection Hstep as <-.
    + by apply ret_wf_insert.
    + apply ret_wf_insert; [done|]. cbn. right. auto.
  - destruct (pool s !! tid) as [[[| |o|]|]|]; try done. injection Hstep as <-.
    apply ret_wf_insert; [done|]. cbn. by left.
  - destruct (pool s !! tid) as [[|[g| | |]]|]; try done.
    case_bool_decide; [|done]. injection Hstep as <-. by apply ret_wf_insert.
  - destruct (pool s !! tid) as [[|[|g bins| |]]|]; try done.
    injection Hstep as <-. unfold nextOffer_select. destruct bins as [|b rest].
    { apply ret_wf_insert; [done|]. cbn. right. auto. }
    destruct (chan_recv (neg s) b) as [[[sender o] n']|]; cbn.
    + apply ret_wf_insert; [|done]. by apply ret_wf_insert.
    + by apply ret_wf_insert.
  - destruct (pool s !! tid) as [[|[| |g bins o|]]|]; try done.
    injection Hstep as <-. apply ret_wf_insert; [done|].
    unfold nextOffer_check. destruct (answers (neg s) !! offer_id o) as [a|]; [|done].
    destruct (expiry a <? now); [done|]. cbn. by left.
  - by injection Hstep as <-.
  - by injection Hstep as <-.
  - by injection Hstep as <-.
Qed.

Lemma ret_wf_run (evs : list event) (s s' : system) :
  (∀ t g, pool s !! t = Some g → ret_wf g) →
  run cvt evs s = Some s' →
  ∀ t g, pool s' !! t = Some g → ret_wf g.
Proof.
  revert s. induction evs as [|e evs IH]; intros s Hp Hrun; cbn in Hrun.
  - by injection Hrun as <-.
  - destruct (step cvt e s) as [s1|] eqn:Hstep; [|done].
    eapply IH; [|done]. by eapply ret_wf_step.
Qed.

Lemma select_finds (tid : nat) (g : Z) (binIDs : list Z) (s : system) :
  pool s !! tid = Some (G_nextOffer (NO_select g binIDs)) →
  Exists (λ b, chan_recv (neg s) b ≠ None) binIDs →
  ∃ skipped b rest sender o n' s',
    binIDs = skipped ++ b :: rest ∧
    Forall (λ b0, chan_recv (neg s) b0 = None) skipped ∧
    chan_recv (neg s) b = Some ((sender, o), n') ∧
    run cvt (replicate (S (length skipped)) (Ev_no_select tid)) s = Some s' ∧
    neg s' = n' ∧
    pool s' !! tid = Some (G_nextOffer (NO_check g (b :: rest) o)).
Proof.
  intros Ht Hex. revert s Ht Hex.
  induction binIDs as [|b rest IH]; intros s Ht Hex.
  { by apply Exists_nil in Hex. }
  destruct (chan_recv (neg s) b) as [[[sender o] n']|] eqn:Hrecv.
  - exists [], b, rest, sender, o, n'. eexists. split_and!; [done|done|done| | |].
    + cbn. rewrite Ht. unfold nextOffer_select. by rewrite Hrecv.
    + done.
    + cbn. by rewrite lookup_insert_eq.
  - apply Exists_cons in Hex as [Hex|Hex]; [done|].
    set (s1 := set_goroutine s tid (G_nextOffer (NO_select g rest))).
    destruct (IH s1) as (skipped & b' & rest' & sender & o & n' & s' & Heq & Hsk
                         & Hb' & Hrun & Hneg & Hpool).
    { cbn. by rewrite lookup_insert_eq. }
    { done. }
    exists (b :: skipped), b', rest', sender, o, n', s'.
    split_and!; [by rewrite Heq|by constructor|done| |done|done].
    cbn [length replicate run step]. rewrite Ht. unfold nextOffer_select.
    rewrite Hrecv. exact Hrun.
Qed.

End Returns.

(** X11: each operation returns only its own errors.  [registerAnswer]:
    [ErrInvalidOfferID] or [ErrAnswerRepeated]; [lookupAnswer]: a non-nil
    body with a nil error, or a nil body with [ErrInvalidOfferID],
    [ErrNoAccess] or [ErrAnswerPending]; a returned [registerOffer]:
    [ErrBadGroupID] or [ErrRNGError], each with identifier 0; a returned
    [nextOffer]: [ErrNoOfferAvailable] with identifier 0 and a nil SDP.  No
    operation ever returns [ErrNotAuthenticated]. *)
Theorem error_taxonomy (cvt : Z) :
  (∀ n offerID sdp,
     (registerAnswer n offerID sdp).2 = None ∨
     (registerAnswer n offerID sdp).2 = Some ErrInvalidOfferID ∨
     (registerAnswer n offerID sdp).2 = Some ErrAnswerRepeated) ∧
  (∀ n usr offerID,
     (∃ b, (lookupAnswer n usr offerID).2 = (Some b, None)) ∨
     (lookupAnswer n usr offerID).2 = (None, Some ErrInvalidOfferID) ∨
     (lookupAnswer n usr offerID).2 = (None, Some ErrNoAccess) ∨
     (lookupAnswer n usr offerID).2 = (None, Some ErrAnswerPending)) ∧
  (∀ s tid g, reachable cvt s → pool s !! tid = Some g → ret_wf g).
Proof.
  split_and!.
  - intros n offerID sdp. unfold registerAnswer.
    destruct (answers n !! offerID) as [a|]; [|auto]. destruct (body a); auto.
  - intros n usr offerID. unfold lookupAnswer.
    destruct (answers n !! offerID) as [a|]; [|auto].
    case_bool_decide; [auto|]. destruct (body a) as [b|]; [|auto].
    left. by exists b.
  - intros s tid g (G & ttl0 & n & evs & Hnew & Hrun) Hg.
    eapply (ret_wf_run cvt evs (mkSystem n ∅)); [|done..].
    intros t g0. cbn. by rewrite lookup_empty.
Qed.

(** X12: a [nextOffer] goroutine that runs its probes without interruption
    passes over the bins of its list that have no sender waiting and
    receives the offer at the head of the first bin that has one; it then
    holds that offer for the staleness check, with that bin still first in
    its list. *)
Theorem nextOffer_first_waiting (cvt : Z) (tid : nat) (g : Z) (binIDs : list Z)
    (s : system) :
  pool s !! tid = Some (G_nextOffer (NO_select g binIDs)) →
  Exists (λ b, chan_recv (neg s) b ≠ None) binIDs →
  ∃ skipped b rest sender o n' s',
    binIDs = skipped ++ b :: rest ∧
    Forall (λ b0, chan_recv (neg s) b0 = None) skipped ∧
    chan_recv (neg s) b = Some ((sender, o), n') ∧
    run cvt (replicate (S (length skipped)) (Ev_no_select tid)) s = Some s' ∧
    neg s' = n' ∧
    pool s' !! tid = Some (G_nextOffer (NO_check g (b :: rest) o)).
Proof. intros Ht Hex. by apply select_finds. Qed.

Lemma nextOffer_first_waiting_witness :
  ∃ skipped b rest sender o n' s',
    [1; 3; 5; 7] = skipped ++ b :: rest ∧
    Forall (λ b0, chan_recv (neg polled7) b0 = None) skipped ∧
    chan_recv (neg polled7) b = Some ((sender, o), n') ∧
    run amd64 (replicate (S (length skipped)) (Ev_no_select 1)) polled7 = Some s' ∧
    neg s' = n' ∧
    pool s' !! 1%nat = Some (G_nextOffer (NO_check 1 (b :: rest) o)).
Proof.
  apply (nextOffer_first_waiting amd64 1 1 [1; 3; 5; 7] polled7).
  - reflexivity.
  - apply Exists_cons_hd. vm_compute. discriminate.
Defined.

(** * The HTTP transport *)

Section Gates.

Context {S : Type}.
Variable lib : GoLib.
Variable a : API.

Lemma verifyHMAC_true (uid : Z) (offer0 mac : list Byte.byte) :
  verifyHMAC lib a uid offer0 mac = true →
  ∃ secret, userpass a !! uid = Some secret ∧
            mac = hmac_sha256 lib (String.list_byte_of_string secret) offer0.
Proof.
  unfold verifyHMAC. destruct (userpass a !! uid) as [secret|]; [|done].
  intros H. apply bool_decide_eq_true in H. by exists secret.
Qed.

Lemma group_denied_false (gid : Z) (secret : string) :
  group_denied a gid secret = false → groupSecret a !! gid = Some secret.
Proof.
  unfold group_denied. destruct (groupSecret a !! gid) as [s|]; [|done].
  intros H. apply bool_decide_eq_false in H. f_equal.
  by destruct (decide (s = secret)).
Qed.

End Gates.

(** X13: the [registerOffer] handler lets a request through to the callback
    only if its form parses, its [uid] is the hex ID of a user with a password
    entry, and its [hmac] field decodes to the HMAC-SHA256 of the decoded offer
    under that password.  Every other request is answered 404 with the broker
    state untouched; a request that is let through leaves the state that the
    callback leaves when called with that user, that offer and the posted
    groups. *)
Theorem API_registerOffer_gate {S : Type} (lib : GoLib) (a : API)
    (cb : Z → slice → list Z → S → S * (Z * option error))
    (req : option offerNewForm) (st : S) :
  (API_registerOffer lib a cb req st).2 ≠ SendStatus StatusNotFound ∨
  (API_registerOffer lib a cb req st).1 ≠ st →
  ∃ postForm uid offer0 secret,
    req = Some postForm ∧
    ParseUint16 lib (on_UID postForm) = Some uid ∧
    DecodeString lib (on_SDP postForm) = Some offer0 ∧
    userpass a !! uid = Some secret ∧
    DecodeString lib (on_HMAC postForm) =
      Some (hmac_sha256 lib (String.list_byte_of_string secret) offer0) ∧
    (API_registerOffer lib a cb req st).1 =
      (cb uid (Some offer0) (on_Groups postForm) st).1.
Proof.
  unfold API_registerOffer. intros Hthrough.
  destruct req as [postForm|]; [|by destruct Hthrough].
  destruct (ParseUint16 lib (on_UID postForm)) as [uid|] eqn:Huid;
    [|by destruct Hthrough].
  destruct (DecodeString lib (on_SDP postForm)) as [offer0|] eqn:Hsdp;
    [|by destruct Hthrough].
  destruct (DecodeString lib (on_HMAC postForm)) as [mac|] eqn:Hmac;
    [|by destruct Hthrough].
  destruct (verifyHMAC lib a uid offer0 mac) eqn:Hv; [|by destruct Hthrough].
  apply verifyHMAC_true in Hv as (secret & Hsecret & ->).
  exists postForm, uid, offer0, secret. split_and!; [done..|]. cbn.
  destruct (cb uid (Some offer0) (on_Groups postForm) st) as [st' [offerID [e|]]];
    done.
Qed.

Lemma API_registerOffer_gate_witness :
  ∃ postForm uid offer0 secret,
    Some (mkOfferNewForm "sdp" "pwsdp" "2a" [1]) = Some postForm ∧
    ParseUint16 example_lib (on_UID postForm) = Some uid ∧
    DecodeString example_lib (on_SDP postForm) = Some offer0 ∧
    userpass example_api !! uid = Some secret ∧
    DecodeString example_lib (on_HMAC postForm) =
      Some (hmac_sha256 example_lib (String.list_byte_of_string secret) offer0) ∧
    (API_registerOffer example_lib example_api
       (λ usr sdp groups (st : list Z), (usr :: st, (7, None)))
       (Some (mkOfferNewForm "sdp" "pwsdp" "2a" [1])) []).1 =
      ((λ usr sdp groups (st : list Z), (usr :: st, (7, None : option error)))
         uid (Some offer0) (on_Groups postForm) []).1.
Proof.
  apply (API_registerOffer_gate example_lib example_api
           (λ usr sdp groups (st : list Z), (usr :: st, (7, None)))
           (Some (mkOfferNewForm "sdp" "pwsdp" "2a" [1])) []).
  right. vm_compute. discriminate.
Defined.

(** X14: the [nextOffer] and [registerAnswer] handlers let a request through
    to their callback only if its form parses, its [gid] is the hex ID of a
    group with a secret, and the posted secret equals it; every other request
    is answered 404 with the broker state untouched. *)
Theorem API_group_gate {S : Type} (lib : GoLib) (a : API) (st : S) :
  (∀ cb req,
     (API_nextOffer lib a cb req st).2 ≠ SendStatus StatusNotFound ∨
     (API_nextOffer lib a cb req st).1 ≠ st →
     ∃ postForm gid,
       req = Some postForm ∧ ParseUint16 lib (ox_GID postForm) = Some gid ∧
       groupSecret a !! gid = Some (ox_Secret postForm) ∧
       (API_nextOffer lib a cb req st).1 = (cb gid st).1) ∧
  (∀ cb req,
     (API_registerAnswer lib a cb req st).2 ≠ SendStatus StatusNotFound ∨
     (API_registerAnswer lib a cb req st).1 ≠ st →
     ∃ postForm gid offerID answer0,
       req = Some postForm ∧ ParseUint16 lib (an_GID postForm) = Some gid ∧
       groupSecret a !! gid = Some (an_Secret postForm) ∧
       ParseUint16 lib (an_OfferID postForm) = Some offerID ∧
       DecodeString lib (an_SDP postForm) = Some answer0 ∧
       (API_registerAnswer lib a cb req st).1 = (cb offerID (Some answer0) st).1).
Proof.
  split.
  - intros cb req Hthrough. unfold API_nextOffer in *.
    destruct req as [postForm|]; [|by destruct Hthrough].
    destruct (ParseUint16 lib (ox_GID postForm)) as [gid|] eqn:Hgid;
      [|by destruct Hthrough].
    destruct (group_denied a gid (ox_Secret postForm)) eqn:Hd;
      [by destruct Hthrough|].
    apply group_denied_false in Hd. exists postForm, gid. split_and!; [done..|].
    destruct (cb gid st) as [st' [[offerID offer0] [e|]]]; [|done].
    by case_bool_decide.
  - intros cb req Hthrough. unfold API_registerAnswer in *.
    destruct req as [postForm|]; [|by destruct Hthrough].
    destruct (ParseUint16 lib (an_GID postForm)) as [gid|] eqn:Hgid;
      [|by destruct Hthrough].
    destruct (group_denied a gid (an_Secret postForm)) eqn:Hd;
      [by destruct Hthrough|].
    destruct (ParseUint16 lib (an_OfferID postForm)) as [offerID|] eqn:Hid;
      [|by destruct Hthrough].
    destruct (DecodeString lib (an_SDP postForm)) as [answer0|] eqn:Hans;
      [|by destruct Hthrough].
    apply group_denied_false in Hd.
    exists postForm, gid, offerID, answer0. split_and!; [done..|].
    by destruct (cb offerID (Some answer0) st) as [st' [e|]].
Qed.

(** X15: the [lookupAnswer] handler hands the parsed offer ID and user ID to
    the callback in the order (offer ID, user ID), while the callback bound by
    HookToAPI is [lookupAnswer(user, offerID)].  An authenticated owner who
    asks for an answered offer is therefore refused with [ErrInvalidOfferID]
    when no row is stored under the number of the user ID; the handler
    answers with a body exactly when the table holds, under the user ID as
    key, an answered row whose owner field is the posted offer ID. *)
Theorem API_lookupAnswer_swapped (lib : GoLib) (a : API)
    (postForm : answerLookupForm) (offerID uid : Z) (secret : string)
    (n : Negotiator) :
  ParseUint16 lib (al_OfferID postForm) = Some offerID →
  ParseUint16 lib (al_UID postForm) = Some uid →
  userpass a !! uid = Some secret →
  DecodeString lib (al_HMAC postForm) =
    Some (hmac_sha256 lib (String.list_byte_of_string secret)
            (String.list_byte_of_string (al_OfferID postForm))) →
  (∀ row b,
     answers n !! offerID = Some row → user row = uid → body row = Some b →
     answers n !! uid = None →
     API_lookupAnswer lib a lookupAnswer_callback (Some postForm) n =
       (n, error_response ErrInvalidOfferID)) ∧
  (∀ b,
     (API_lookupAnswer lib a lookupAnswer_callback (Some postForm) n).2 =
       JSON StatusOK [("status", "success"); ("answer", EncodeToString lib b)] →
     ∃ row b', answers n !! uid = Some row ∧ user row = offerID ∧
               body row = Some b' ∧ EncodeToString lib b' = EncodeToString lib b).
Proof.
  intros Hid Huid Hsecret Hmac.
  assert (verifyHMAC lib a uid (String.list_byte_of_string (al_OfferID postForm))
            (hmac_sha256 lib (String.list_byte_of_string secret)
               (String.list_byte_of_string (al_OfferID postForm))) = true) as Hv.
  { unfold verifyHMAC. rewrite Hsecret. by apply bool_decide_eq_true. }
  unfold API_lookupAnswer. rewrite Hid, Huid, Hmac, Hv. cbn [negb].
  unfold lookupAnswer_callback, lookupAnswer. split.
  - intros row b _ _ _ Hnone. by rewrite Hnone.
  - intros b. destruct (answers n !! uid) as [row|] eqn:Hrow; [|done].
    case_bool_decide as Hu; [done|]. destruct (body row) as [b'|] eqn:Hb; [|done].
    cbn. intros [= Henc]. exists row, b'. split_and!; [done| |done|done].
    by destruct (decide (user row = offerID)).
Qed.

Lemma API_lookupAnswer_swapped_witness :
  API_lookupAnswer example_lib example_api lookupAnswer_callback
    (Some (mkAnswerLookupForm "7" "2a" "pw7")) owned7 =
    (owned7, error_response ErrInvalidOfferID) ∧
  (API_lookupAnswer example_lib example_api lookupAnswer_callback
     (Some (mkAnswerLookupForm "7" "2a" "pw7")) crossed7).2 =
    JSON StatusOK
      [("status", "success"); ("answer", EncodeToString example_lib [Byte.xaa])] ∧
  ∃ row b', answers crossed7 !! 42 = Some row ∧ user row = 7 ∧
            body row = Some b' ∧
            EncodeToString example_lib b' = EncodeToString example_lib [Byte.xaa].
Proof.
  split; [|split].
  - apply (proj1 (API_lookupAnswer_swapped example_lib example_api
                    (mkAnswerLookupForm "7" "2a" "pw7") 7 42 "pw" owned7
                    eq_refl eq_refl eq_refl eq_refl)
             (mkAnswer (Some [Byte.xaa]) 100 42) [Byte.xaa]);
      reflexivity.
  - reflexivity.
  - apply (proj2 (API_lookupAnswer_swapped example_lib example_api
                    (mkAnswerLookupForm "7" "2a" "pw7") 7 42 "pw" crossed7
                    eq_refl eq_refl eq_refl eq_refl) [Byte.xaa]).
    reflexivity.
Defined.

(** X16: through the HTTP API an answer is registered at most once.  The
    handler always passes a non-nil SDP (the decoded [answer] field, be it
    empty), so once an authenticated [registerAnswer] request for an offer ID
    has been answered with success, every later authenticated request for the
    same offer ID is answered with [ErrAnswerRepeated] and changes nothing,
    as long as the row is neither swept nor created anew. *)
Theorem API_registerAnswer_once (lib : GoLib) (a : API)
    (f1 f2 : answerNewForm) (gid1 gid2 offerID : Z) (ans1 ans2 : list Byte.byte)
    (n : Negotiator) :
  ParseUint16 lib (an_GID f1) = Some gid1 →
  groupSecret a !! gid1 = Some (an_Secret f1) →
  ParseUint16 lib (an_OfferID f1) = Some offerID →
  DecodeString lib (an_SDP f1) = Some ans1 →
  ParseUint16 lib (an_GID f2) = Some gid2 →
  groupSecret a !! gid2 = Some (an_Secret f2) →
  ParseUint16 lib (an_OfferID f2) = Some offerID →
  DecodeString lib (an_SDP f2) = Some ans2 →
  (API_registerAnswer lib a registerAnswer_callback (Some f1) n).2 =
    JSON StatusOK [("status", "success")] →
  ∃ n1 row,
    (API_registerAnswer lib a registerAnswer_callback (Some f1) n).1 = n1 ∧
    answers n !! offerID = Some row ∧ body row = None ∧
    answers n1 !! offerID = Some (mkAnswer (Some ans1) (expiry row) (user row)) ∧
    API_registerAnswer lib a registerAnswer_callback (Some f2) n1 =
      (n1, error_response ErrAnswerRepeated).
Proof.
  intros Hg1 Hs1 Hid1 Ha1 Hg2 Hs2 Hid2 Ha2.
  assert (∀ gid secret, groupSecret a !! gid = Some secret →
                        group_denied a gid secret = false) as Hallow.
  { intros gid secret H. unfold group_denied. rewrite H.
    by apply bool_decide_eq_false_2; intros Hne. }
  unfold API_registerAnswer.
  rewrite Hg1, (Hallow _ _ Hs1), Hid1, Ha1, Hg2, (Hallow _ _ Hs2), Hid2, Ha2.
  unfold registerAnswer_callback.
  destruct (registerAnswer n offerID (Some ans1)) as [n1 [e|]] eqn:Hr; [done|].
  intros _. apply registerAnswer_success_body in Hr as (row & Hrow & Hbody & Hrow1).
  exists n1, row. split_and!; [done..|].
  by rewrite (registerAnswer_present _ _ _ _ ans1 Hrow1 eq_refl).
Qed.

Lemma API_registerAnswer_once_witness :
  ∃ n1 row,
    (API_registerAnswer example_lib example_api registerAnswer_callback
       (Some (mkAnswerNewForm "2a" "gs" "7" "")) pending7).1 = n1 ∧
    answers pending7 !! 7 = Some row ∧
    body row = None ∧
    answers n1 !! 7 = Some (mkAnswer (Some []) (expiry row) (user row)) ∧
    API_registerAnswer example_lib example_api registerAnswer_callback
      (Some (mkAnswerNewForm "2a" "gs" "7" "again")) n1 =
      (n1, error_response ErrAnswerRepeated).
Proof.
  apply (API_registerAnswer_once example_lib example_api
           (mkAnswerNewForm "2a" "gs" "7" "") (mkAnswerNewForm "2a" "gs" "7" "again")
           42 42 7 [] (String.list_byte_of_string "again") pending7);
    reflexivity.
Defined.

(** * The polling loop of the edge server *)

Section Polling.

Variable lib : GoLib.
Variable Unmarshal : list Byte.byte → option nextResponse.
Variable s : Server.

Lemma handler_calls_app (l1 l2 : list effect) :
  handler_calls (l1 ++ l2) = handler_calls l1 ++ handler_calls l2.
Proof. apply omap_app. Qed.

Lemma handler_calls_log (e : effect) :
  (∀ offerID offer0, e ≠ Handler offerID offer0) → handler_calls (log s e) = [].
Proof.
  intros He. unfold log. destruct (Logger s); [|done].
  destruct e; try done. by destruct (He offerID offer0).
Qed.

Lemma handler_calls_insecureWarn (warned : bool) :
  handler_calls (insecureWarn s warned) = [].
Proof.
  unfold insecureWarn. destruct warned; [done|].
  by destruct ((InsecureSkipVerify s || InsecurePlainHTTP s) && Logger s).
Qed.

Lemma readNextOffer_spec (warned : bool) (posted : option (list Byte.byte)) :
  ∃ offerID offer0 err warned' effs,
    readNextOffer lib Unmarshal s warned posted =
      ((offerID, offer0, err), warned', effs) ∧
    handler_calls effs = [] ∧
    (err ≠ None → offerID = 0 ∧ offer0 = None).
Proof.
  unfold readNextOffer.
  assert (∀ url form, handler_calls
            (insecureWarn s warned ++ log s Debugf ++
             [POST url form (InsecureSkipVerify s) (SNI s)]) = []) as Hnone.
  { intros url form. rewrite !handler_calls_app, handler_calls_insecureWarn.
    by rewrite handler_calls_log. }
  destruct (String.eqb (ServerAddr s) ""); [by eexists _, _, _, _, _|].
  destruct posted as [resp|]; [|by eexists _, _, _, _, _].
  destruct (Unmarshal resp) as [rd|]; [|by eexists _, _, _, _, _].
  destruct (String.eqb (nr_Status rd) "success").
  - destruct (ParseUint16 lib (nr_OfferIDHex rd)) as [offerID|];
      [|by eexists _, _, _, _, _].
    destruct (DecodeString lib (nr_OfferB64 rd)) as [offer0|];
      by eexists _, _, _, _, _.
  - destruct (String.eqb (nr_Status rd) "pending"); by eexists _, _, _, _, _.
Qed.

Lemma loop_body_handler (warned : bool) (posted : option (list Byte.byte))
    (handler_err : bool) (warned' : bool) (effs : list effect) :
  nextOfferHandler s = true →
  loop_body lib Unmarshal s warned posted handler_err = (true, warned', effs) →
  handler_calls effs = [(readNextOffer lib Unmarshal s warned posted).1.1.1].
Proof.
  intros Hh. unfold loop_body.
  destruct (readNextOffer_spec warned posted)
    as (offerID & offer0 & err & w' & effs0 & -> & Hnone & _).
  cbn [fst snd]. rewrite Hh.
  assert (handler_calls
            (if handler_err then log s Errorf else []) = []) as Hherr.
  { destruct handler_err; [by apply handler_calls_log|done]. }
  assert (∀ effs_err, handler_calls effs_err = [] →
            handler_calls
              (effs0 ++ effs_err ++ log s Debugf ++
               (Handler offerID offer0 :: (if handler_err then log s Errorf else [])) ++
               (if 0 <? WaitAfterSuccess s then [Sleep (WaitAfterSuccess s)] else []))
            = [(offerID, offer0)]) as Hcalls.
  { intros effs_err Herr. rewrite !handler_calls_app, Hnone, Herr.
    rewrite handler_calls_log by done. cbn.
    fold (handler_calls (if handler_err then log s Errorf else [])).
    fold (handler_calls (if 0 <? WaitAfterSuccess s
                         then [Sleep (WaitAfterSuccess s)] else [])).
    rewrite Hherr. by destruct (0 <? WaitAfterSuccess s). }
  destruct err as [[| |[]| | | |]|]; cbn [negb];
    try (destruct (0 <? WaitAfterError s); cbn [negb]; [|done]);
    intros [= _ <-];
    first [exact (Hcalls [] eq_refl)
          | apply Hcalls;
            rewrite ?handler_calls_app, ?handler_calls_log by done; done].
Qed.

End Polling.

(** X17: when the negotiator answers a poll with status "pending", the loop
    of the edge server sleeps for [WaitAfterPending] (five seconds if that is
    not positive) and then goes on through the rest of its body: after that
    sleep, and not before it, it calls the handler, once, with offer ID 0 and
    a nil offer. *)
Theorem loop_body_pending (lib : GoLib)
    (Unmarshal : list Byte.byte → option nextResponse) (s : Server)
    (warned handler_err : bool) (resp : list Byte.byte) (rd : nextResponse) :
  ServerAddr s ≠ "" → nextOfferHandler s = true →
  Unmarshal resp = Some rd → nr_Status rd = "pending" →
  ∃ effs,
    loop_body lib Unmarshal s warned (Some resp) handler_err = (true, true, effs) ∧
    handler_calls effs = [(0, None)] ∧
    Sleep (if 0 <? WaitAfterPending s then WaitAfterPending s
           else defaultWaitAfterPending) ∈ effs ∧
    ∃ before after,
      effs =
        before ++
        Sleep (if 0 <? WaitAfterPending s then WaitAfterPending s
               else defaultWaitAfterPending) :: after ∧
      handler_calls before = [] ∧
      (∀ d, Sleep d ∉ before) ∧
      handler_calls after = [(0, None)].
Proof.
  intros Haddr Hh Hresp Hstatus.
  set (d := if 0 <? WaitAfterPending s then WaitAfterPending s
            else defaultWaitAfterPending).
  set (before := insecureWarn s warned ++ log s Debugf ++
         [POST (serverUrl s "/rtcsocks/offer/next")
            [("gid", Sprintf_x lib (GroupID s)); ("secret", Secret s)]
            (InsecureSkipVerify s) (SNI s)] ++ log s Debugf).
  set (after := log s Debugf ++
         (Handler 0 None :: (if handler_err then log s Errorf else [])) ++
         (if 0 <? WaitAfterSuccess s then [Sleep (WaitAfterSuccess s)] else [])).
  assert (loop_body lib Unmarshal s warned (Some resp) handler_err =
            (true, true, before ++ Sleep d :: after)) as Hbody.
  { unfold loop_body, readNextOffer. rewrite (proj2 (String.eqb_neq _ _) Haddr).
    rewrite Hresp, Hstatus, Hh. cbn [String.eqb Ascii.eqb Bool.eqb negb].
    unfold before, after, d. f_equal. by rewrite <- !app_assoc. }
  assert (handler_calls before = []) as Hbefore.
  { unfold before. rewrite !handler_calls_app, handler_calls_insecureWarn.
    by rewrite !handler_calls_log. }
  assert (handler_calls after = [(0, None)]) as Hafter.
  { unfold after. rewrite !handler_calls_app. rewrite handler_calls_log by done.
    cbn. fold (handler_calls (if handler_err then log s Errorf else [])).
    fold (handler_calls (if 0 <? WaitAfterSuccess s
                         then [Sleep (WaitAfterSuccess s)] else [])).
    assert (handler_calls (if handler_err then log s Errorf else []) = []) as ->.
    { destruct handler_err; [by apply handler_calls_log|done]. }
    by destruct (0 <? WaitAfterSuccess s). }
  assert (∀ d', Sleep d' ∉ before) as Hnosleep.
  { intros d' Hin. unfold before, insecureWarn, log in Hin.
    destruct warned, ((InsecureSkipVerify s || InsecurePlainHTTP s) && Logger s),
      (Logger s); cbn in Hin;
      repeat (apply elem_of_cons in Hin as [Hin|Hin]; [discriminate|]);
      by apply elem_of_nil in Hin. }
  exists (before ++ Sleep d :: after). split_and!; [done| | |].
  - rewrite handler_calls_app, Hbefore. cbn. by fold (handler_calls after).
  - rewrite elem_of_app. right. by left.
  - by exists before, after.
Qed.

Lemma loop_body_pending_witness :
  ∃ effs,
    loop_body example_lib (λ _, Some (mkNextResponse "pending" "" "" ""))
      (mkServer "gs" 42 "broker" "" false false false true 0 0 0)
      false (Some []) false = (true, true, effs) ∧
    handler_calls effs = [(0, None)] ∧
    Sleep (if 0 <? WaitAfterPending
                      (mkServer "gs" 42 "broker" "" false false false true 0 0 0)
           then WaitAfterPending
                  (mkServer "gs" 42 "broker" "" false false false true 0 0 0)
           else defaultWaitAfterPending) ∈ effs ∧
    ∃ before after,
      effs =
        before ++
        Sleep (if 0 <? WaitAfterPending
                          (mkServer "gs" 42 "broker" "" false false false true 0 0 0)
               then WaitAfterPending
                      (mkServer "gs" 42 "broker" "" false false false true 0 0 0)
               else defaultWaitAfterPending) :: after ∧
      handler_calls before = [] ∧
      (∀ d, Sleep d ∉ before) ∧
      handler_calls after = [(0, None)].
Proof.
  apply (loop_body_pending example_lib (λ _, Some (mkNextResponse "pending" "" "" ""))
           (mkServer "gs" 42 "broker" "" false false false true 0 0 0)
           false false [] (mkNextResponse "pending" "" "" "")).
  - discriminate.
  - reflexivity.
  - reflexivity.
  - reflexivity.
Defined.

Section PollingLoop.

Variable lib : GoLib.
Variable Unmarshal : list Byte.byte → option nextResponse.
Variable s : Server.

Lemma loop_body_goes_on (warned : bool) (posted : option (list Byte.byte))
    (handler_err : bool) :
  0 < WaitAfterError s →
  (loop_body lib Unmarshal s warned posted handler_err).1.1 = true.
Proof.
  intros Hw. unfold loop_body.
  destruct (readNextOffer lib Unmarshal s warned posted) as [[[[id o] err] w] effs].
  destruct err as [[| |[]| | | |]|]; cbn [negb fst]; try done;
    by rewrite (proj2 (Z.ltb_lt _ _) Hw).
Qed.

Lemma loop_body_no_handler (warned : bool) (posted : option (list Byte.byte))
    (handler_err : bool) :
  nextOfferHandler s = false →
  handler_calls (loop_body lib Unmarshal s warned posted handler_err).2 = [].
Proof.
  intros Hh. unfold loop_body.
  destruct (readNextOffer_spec lib Unmarshal s warned posted)
    as (offerID & offer0 & err & w' & effs0 & -> & Hnone & _).
  rewrite Hh.
  assert (∀ goes_on effs_err, handler_calls effs_err = [] →
            handler_calls
              (if negb goes_on then (false, w', effs0 ++ effs_err)
               else (true, w',
                     effs0 ++ effs_err ++ log s Debugf ++ log s Warnf ++
                     (if 0 <? WaitAfterSuccess s
                      then [Sleep (WaitAfterSuccess s)] else []))).2 = [])
    as Hcalls.
  { intros goes_on effs_err Herr. destruct goes_on; cbn [negb snd].
    - rewrite !handler_calls_app, Hnone, Herr, !handler_calls_log by done.
      by destruct (0 <? WaitAfterSuccess s).
    - by rewrite handler_calls_app, Hnone, Herr. }
  destruct err as [[| |[]| | | |]|];
    try (destruct (0 <? WaitAfterError s));
    apply Hcalls; rewrite ?handler_calls_app, ?handler_calls_log by done; done.
Qed.

End PollingLoop.

(** X18: with a positive [WaitAfterError] the polling loop never returns,
    whatever its polls yield and whether or not a handler is set; with a
    handler set it calls the handler exactly once per poll, and with none set
    it calls nothing. *)
Theorem loop_keeps_polling (lib : GoLib)
    (Unmarshal : list Byte.byte → option nextResponse) (s : Server)
    (warned : bool) (outcomes : list (option (list Byte.byte) * bool)) :
  0 < WaitAfterError s →
  ∃ effs,
    loopReadNextOffer lib Unmarshal s warned outcomes =
      (false, length outcomes, effs) ∧
    (nextOfferHandler s = true →
       length (handler_calls effs) = length outcomes) ∧
    (nextOfferHandler s = false → handler_calls effs = []).
Proof.
  intros Hw. revert warned.
  induction outcomes as [|[posted herr] rest IH]; intros warned.
  { by exists []. }
  cbn [loopReadNextOffer].
  pose proof (loop_body_goes_on lib Unmarshal s warned posted herr Hw) as Hon.
  pose proof (loop_body_no_handler lib Unmarshal s warned posted herr) as Hno.
  destruct (loop_body lib Unmarshal s warned posted herr) as [[goes_on w'] effs0]
    eqn:Hbody.
  cbn [fst snd] in Hon, Hno. subst goes_on.
  destruct (IH w') as (effs' & -> & Hlen & Hnil).
  eexists. split; [done|]. split.
  - intros Hh. rewrite handler_calls_app, length_app, (Hlen Hh).
    by rewrite (loop_body_handler lib Unmarshal s warned posted herr w' effs0 Hh Hbody).
  - intros Hh. by rewrite handler_calls_app, (Hno Hh), (Hnil Hh).
Qed.

Lemma loop_keeps_polling_witness :
  (∃ effs,
     loopReadNextOffer example_lib (λ _, None)
       (mkServer "gs" 42 "" "" false false false true 0 0 1) false
       [(None, false); (Some [], true)] =
       (false, length [(None : option (list Byte.byte), false); (Some [], true)],
        effs) ∧
     (nextOfferHandler (mkServer "gs" 42 "" "" false false false true 0 0 1) = true →
        length (handler_calls effs) =
          length [(None : option (list Byte.byte), false); (Some [], true)]) ∧
     (nextOfferHandler (mkServer "gs" 42 "" "" false false false true 0 0 1) = false →
        handler_calls effs = [])) ∧
  (∃ effs,
     loopReadNextOffer example_lib (λ _, None)
       (mkServer "gs" 42 "" "" false false false false 0 0 1) false
       [(None, false); (Some [], true)] =
       (false, length [(None : option (list Byte.byte), false); (Some [], true)],
        effs) ∧
     (nextOfferHandler (mkServer "gs" 42 "" "" false false false false 0 0 1) = true →
        length (handler_calls effs) =
          length [(None : option (list Byte.byte), false); (Some [], true)]) ∧
     (nextOfferHandler (mkServer "gs" 42 "" "" false false false false 0 0 1) = false →
        handler_calls effs = [])).
Proof.
  split.
  - apply (loop_keeps_polling example_lib (λ _, None)
             (mkServer "gs" 42 "" "" false false false true 0 0 1) false
             [(None, false); (Some [], true)]).
    reflexivity.
  - apply (loop_keeps_polling example_lib (λ _, None)
             (mkServer "gs" 42 "" "" false false false false 0 0 1) false
             [(None, false); (Some [], true)]).
    reflexivity.
Defined.

(** X19: with [WaitAfterError] not positive the polling loop returns at the
    first poll that fails with anything but [ErrNoOfferAvailable], without
    calling the handler for that poll.  With an empty [ServerAddr] this is the
    very first poll, and the loop ends having sent no request at all. *)
Theorem loop_returns_on_error (lib : GoLib)
    (Unmarshal : list Byte.byte → option nextResponse) (s : Server)
    (warned : bool) (posted : option (list Byte.byte)) (handler_err : bool)
    (rest : list (option (list Byte.byte) * bool)) :
  WaitAfterError s ≤ 0 →
  (∀ e, (readNextOffer lib Unmarshal s warned posted).1.1.2 = Some e →
        e ≠ Err_rtcsocks ErrNoOfferAvailable →
        loopReadNextOffer lib Unmarshal s warned ((posted, handler_err) :: rest) =
          (true, 1%nat,
           (readNextOffer lib Unmarshal s warned posted).2 ++ log s Errorf) ∧
        handler_calls
          ((readNextOffer lib Unmarshal s warned posted).2 ++ log s Errorf) = []) ∧
  (ServerAddr s = "" →
     loopReadNextOffer lib Unmarshal s warned ((posted, handler_err) :: rest) =
       (true, 1%nat, log s Errorf)).
Proof.
  intros Hw.
  assert ((0 <? WaitAfterError s) = false) as Hwb by (apply Z.ltb_ge; lia).
  split.
  - intros e He Hne.
    destruct (readNextOffer_spec lib Unmarshal s warned posted)
      as (offerID & offer0 & err & w' & effs0 & Hread & Hnone & _).
    rewrite Hread in He. rewrite Hread. cbn in He. subst err. cbn [snd]. split.
    + cbn [loopReadNextOffer]. unfold loop_body. rewrite Hread.
      destruct e as [| |e0| | | |]; rewrite ?Hwb; try done.
      destruct e0; rewrite ?Hwb; try done.
    + rewrite handler_calls_app, Hnone. by rewrite handler_calls_log.
  - intros Haddr. cbn [loopReadNextOffer]. unfold loop_body, readNextOffer.
    rewrite Haddr. cbn. by rewrite Hwb.
Qed.

Lemma loop_returns_on_error_witness :
  (∀ e, (readNextOffer example_lib (λ _, None)
           (mkServer "gs" 42 "" "" false false true true 0 0 0) false None).1.1.2
          = Some e →
        e ≠ Err_rtcsocks ErrNoOfferAvailable →
        loopReadNextOffer example_lib (λ _, None)
          (mkServer "gs" 42 "" "" false false true true 0 0 0) false
          ((None, false) :: []) =
          (true, 1%nat,
           (readNextOffer example_lib (λ _, None)
              (mkServer "gs" 42 "" "" false false true true 0 0 0) false None).2 ++
           log (mkServer "gs" 42 "" "" false false true true 0 0 0) Errorf) ∧
        handler_calls
          ((readNextOffer example_lib (λ _, None)
              (mkServer "gs" 42 "" "" false false true true 0 0 0) false None).2 ++
           log (mkServer "gs" 42 "" "" false false true true 0 0 0) Errorf) = []) ∧
  (ServerAddr (mkServer "gs" 42 "" "" false false true true 0 0 0) = "" →
     loopReadNextOffer example_lib (λ _, None)
       (mkServer "gs" 42 "" "" false false true true 0 0 0) false
       ((None, false) :: []) =
       (true, 1%nat, log (mkServer "gs" 42 "" "" false false true true 0 0 0) Errorf)).
Proof.
  apply (loop_returns_on_error example_lib (λ _, None)
           (mkServer "gs" 42 "" "" false false true true 0 0 0) false None false []).
  vm_compute. discriminate.
Defined.

(** * The TLS server name *)

Lemma LastIndex_colon_none (port : string) :
  ":"%char ∉ String.list_ascii_of_string port → LastIndex_colon port = None.
Proof.
  induction port as [|c rest IH]; [done|]. cbn. intros Hnot.
  rewrite IH by (intros Hin; apply Hnot; by right).
  destruct (Ascii.eqb_spec c ":"%char) as [->|Hne]; [|done].
  exfalso. apply Hnot. by left.
Qed.

Lemma LastIndex_colon_host (host port : string) :
  ":"%char ∉ String.list_ascii_of_string port →
  LastIndex_colon (host +:+ ":" +:+ port) = Some (String.length host).
Proof.
  intros Hport. induction host as [|c rest IH].
  - change (LastIndex_colon (String ":"%char port) = Some 0%nat).
    cbn [LastIndex_colon]. by rewrite (LastIndex_colon_none _ Hport).
  - change (LastIndex_colon (String c (rest +:+ ":" +:+ port)) =
              Some (Datatypes.S (String.length rest))).
    cbn [LastIndex_colon]. by rewrite IH.
Qed.

Lemma substring_prefix (host tail : string) :
  String.substring 0 (String.length host) (host +:+ tail) = host.
Proof.
  induction host as [|c rest IH].
  - by destruct tail.
  - change (String c (String.substring 0 (String.length rest) (rest +:+ tail)) =
              String c rest).
    by rewrite IH.
Qed.

(** X20: for an address "host:port" whose port holds no colon, the HTTP
    client of the SDK presents [host] as TLS server name (whatever colons the
    host holds, as in a bracketed IPv6 address), unless a non-empty SNI is
    given first, which then is the server name; an address without any colon
    is taken whole. *)
Theorem dial_ServerName_spec (host port : string) (SNI : list string) :
  ":"%char ∉ String.list_ascii_of_string port →
  dial_ServerName (host +:+ ":" +:+ port) SNI =
    match SNI with
    | sni :: _ => if String.eqb sni "" then host else sni
    | [] => host
    end ∧
  dial_ServerName port SNI =
    match SNI with
    | sni :: _ => if String.eqb sni "" then port else sni
    | [] => port
    end.
Proof.
  intros Hport.
  assert (dial_hostname (host +:+ ":" +:+ port) = host) as Hhost.
  { unfold dial_hostname. rewrite (LastIndex_colon_host _ _ Hport).
    apply substring_prefix. }
  assert (dial_hostname port = port) as Hwhole.
  { unfold dial_hostname. by rewrite (LastIndex_colon_none _ Hport). }
  unfold dial_ServerName. rewrite Hhost, Hwhole. by destruct SNI.
Qed.

Lemma dial_ServerName_spec_witness :
  dial_ServerName ("[::1]" +:+ ":" +:+ "443") [""; "x"] =
    match [""; "x"] with
    | sni :: _ => if String.eqb sni "" then "[::1]" else sni
    | [] => "[::1]"
    end ∧
  dial_ServerName "443" [""; "x"] =
    match [""; "x"] with
    | sni :: _ => if String.eqb sni "" then "443" else sni
    | [] => "443"
    end.
Proof.
  apply (dial_ServerName_spec "[::1]" "443" [""; "x"]).
  cbn. rewrite !elem_of_cons, elem_of_nil. intros [H|[H|[H|H]]]; discriminate || done.
Defined.

(** * Client and API together *)

(** X21: a [Client.RegisterOffer] request passes the [registerOffer] handler
    exactly on the strength of the password.  Provided hex and base64 read
    back what they wrote for the values at hand, a client whose password is
    the one stored for its user ID reaches the callback with its user ID, its
    offer and its groups, and the answer is made from the callback's result;
    a client whose password yields another HMAC for the offer gets 404 and
    leaves the broker untouched. *)
Theorem Client_RegisterOffer_through_API {S : Type} (lib : GoLib) (a : API)
    (c : Client) (offer0 : list Byte.byte) (groupID : list Z) (stored : string)
    (cb : Z → slice → list Z → S → S * (Z * option error)) (st : S) :
  ParseUint16 lib (Sprintf_x lib (UserID c)) = Some (UserID c) →
  DecodeString lib (EncodeToString lib offer0) = Some offer0 →
  DecodeString lib
    (EncodeToString lib
       (hmac_sha256 lib (String.list_byte_of_string (Password c)) offer0)) =
    Some (hmac_sha256 lib (String.list_byte_of_string (Password c)) offer0) →
  userpass a !! UserID c = Some stored →
  (stored = Password c →
     API_registerOffer lib a cb
       (Some (Client_RegisterOffer_form lib c offer0 groupID)) st =
       (let '(st', (offerID, err)) := cb (UserID c) (Some offer0) groupID st in
        match err with
        | Some e => (st', error_response e)
        | None =>
            (st', JSON StatusOK
                    [("status", "success"); ("offer_id", Sprintf_x lib offerID)])
        end)) ∧
  (hmac_sha256 lib (String.list_byte_of_string stored) offer0 ≠
     hmac_sha256 lib (String.list_byte_of_string (Password c)) offer0 →
     API_registerOffer lib a cb
       (Some (Client_RegisterOffer_form lib c offer0 groupID)) st =
       (st, SendStatus StatusNotFound)).
Proof.
  intros Huid Hoffer Hmac Hstored.
  unfold API_registerOffer, Client_RegisterOffer_form. cbn.
  rewrite Huid, Hoffer, Hmac. unfold verifyHMAC. rewrite Hstored. split.
  - intros ->. rewrite bool_decide_eq_true_2 by done. cbn [negb].
    by destruct (cb (UserID c) (Some offer0) groupID st) as [st' [offerID [e|]]].
  - intros Hne. by rewrite bool_decide_eq_false_2.
Qed.

Lemma Client_RegisterOffer_through_API_witness :
  ("pw" = Password example_client →
     API_registerOffer example_lib example_api
       (λ usr sdp groups (st : list Z), (usr :: st, (7, None)))
       (Some (Client_RegisterOffer_form example_lib example_client [Byte.x01] [1]))
       [] =
       (let '(st', (offerID, err)) :=
          (λ usr sdp groups (st : list Z), (usr :: st, (7, None : option error)))
            (UserID example_client) (Some [Byte.x01]) [1] [] in
        match err with
        | Some e => (st', error_response e)
        | None =>
            (st', JSON StatusOK
                    [("status", "success");
                     ("offer_id", Sprintf_x example_lib offerID)])
        end)) ∧
  (hmac_sha256 example_lib (String.list_byte_of_string "pw") [Byte.x01] ≠
     hmac_sha256 example_lib
       (String.list_byte_of_string (Password example_client)) [Byte.x01] →
     API_registerOffer example_lib example_api
       (λ usr sdp groups (st : list Z), (usr :: st, (7, None)))
       (Some (Client_RegisterOffer_form example_lib example_client [Byte.x01] [1]))
       [] =
       ([], SendStatus StatusNotFound)).
Proof.
  apply (Client_RegisterOffer_through_API example_lib example_api
           example_client [Byte.x01] [1] "pw"
           (λ usr sdp groups (st : list Z), (usr :: st, (7, None))) []);
    reflexivity.
Defined.

(** X22: a [Client.LookupAnswer] request of the owner passes the HMAC check of
    the [lookupAnswer] handler (both sides take the HMAC over the hex string
    of the offer ID), and then runs into the exchanged arguments: for an
    answered offer of this very user the negotiator answers
    [ErrInvalidOfferID] whenever no row is stored under the number of the user
    ID. *)
Theorem Client_LookupAnswer_through_API (lib : GoLib) (a : API) (c : Client)
    (offerID : Z) (n : Negotiator) (row : answer) (b : list Byte.byte) :
  ParseUint16 lib (Sprintf_x lib offerID) = Some offerID →
  ParseUint16 lib (Sprintf_x lib (UserID c)) = Some (UserID c) →
  DecodeString lib
    (EncodeToString lib
       (hmac_sha256 lib (String.list_byte_of_string (Password c))
          (String.list_byte_of_string (Sprintf_x lib offerID)))) =
    Some (hmac_sha256 lib (String.list_byte_of_string (Password c))
            (String.list_byte_of_string (Sprintf_x lib offerID))) →
  userpass a !! UserID c = Some (Password c) →
  answers n !! offerID = Some row → user row = UserID c → body row = Some b →
  answers n !! UserID c = None →
  (lookupAnswer n (UserID c) offerID).2 = (Some b, None) ∧
  API_lookupAnswer lib a lookupAnswer_callback
    (Some (Client_LookupAnswer_form lib c offerID)) n =
    (n, error_response ErrInvalidOfferID).
Proof.
  intros Hid Huid Hmac Hstored Hrow Howner Hbody Hnone. split.
  - unfold lookupAnswer. rewrite Hrow, Hbody.
    by rewrite bool_decide_eq_false_2 by (intros H; by apply H).
  - unfold API_lookupAnswer, Client_LookupAnswer_form. cbn.
    rewrite Hid, Huid, Hmac. unfold verifyHMAC. rewrite Hstored.
    rewrite bool_decide_eq_true_2 by done. cbn [negb].
    unfold lookupAnswer_callback, lookupAnswer. by rewrite Hnone.
Qed.

Lemma Client_LookupAnswer_through_API_witness :
  (lookupAnswer (with_row negotiator3 7 (mkAnswer (Some [Byte.xaa]) 100 42))
     (UserID example_client) 7).2 = (Some [Byte.xaa], None) ∧
  API_lookupAnswer example_lib example_api lookupAnswer_callback
    (Some (Client_LookupAnswer_form example_lib example_client 7))
    (with_row negotiator3 7 (mkAnswer (Some [Byte.xaa]) 100 42)) =
    (with_row negotiator3 7 (mkAnswer (Some [Byte.xaa]) 100 42),
     error_response ErrInvalidOfferID).
Proof.
  apply (Client_LookupAnswer_through_API example_lib example_api example_client 7
           (with_row negotiator3 7 (mkAnswer (Some [Byte.xaa]) 100 42))
           (mkAnswer (Some [Byte.xaa]) 100 42) [Byte.xaa]);
    reflexivity.
Defined.
